(** * dkc_updater: the update pipeline of [updater.py]

    A shallow embedding of the parts of [src/updater.py] that decide how the
    updater compares versions, checks the manifest, downloads the package and
    merges it into the installation directory, with the properties the
    specification states about them.

    Conventions of the model.
    - A Python [str] is a [string]; a character is its code point, so the
      model covers strings whose code points are below 256.
    - A Python [int] is a [Z].  (The interpreter's limit on the number of
      digits [int()] converts is not modelled.)
    - A Python [dict] with string keys is a [gmap string _].
    - Code that raises returns a sum or an option; code that mutates the
      window, the disk or the event channel passes that state explicitly. *)

From Stdlib Require Import ZArith Lia Ascii String List Bool Sorted.
From Stdlib Require Import Floats.SpecFloat.
From stdpp Require Import base option list gmap strings.

Local Open Scope Z_scope.

(** ** Python values *)

Module Py.

(** The JSON scalars that reach the code: [None], [bool], [int], [str]. *)
Inductive value : Type :=
  | PNone
  | PBool (b : bool)
  | PInt (z : Z)
  | PStr (s : string).

#[global] Instance value_eq_dec : EqDecision value.
Proof. solve_decision. Defined.

(** The exceptions the pipeline can meet. *)
Inductive exn : Type :=
  | AttributeError
  | KeyError (key : string)
  | TypeError
  | ValueError
  | FileExistsError
  | FileNotFoundError
  | NotADirectoryError
  | IsADirectoryError
  | PermissionError
  | OSError (msg : string)
  | HTTPError (status : Z)
  | RequestException (msg : string)
  | BadZipFile (msg : string).

#[global] Instance exn_eq_dec : EqDecision exn.
Proof. solve_decision. Defined.

(** [d[key]]: a missing key raises [KeyError]. *)
Definition getitem {A} (d : gmap string A) (key : string) : exn + A :=
  match d !! key with
  | Some v => inr v
  | None => inl (KeyError key)
  end.

(** [d.get(key, default)] *)
Definition get {A} (d : gmap string A) (key : string) (default : A) : A :=
  match d !! key with
  | Some v => v
  | None => default
  end.

Definition bool_int (b : bool) : Z := if b then 1 else 0.

(** [x == y]: [bool] is a subclass of [int], so [True == 1]. *)
Definition eq (x y : value) : bool :=
  match x, y with
  | PNone, PNone => true
  | PBool a, PBool b => Bool.eqb a b
  | PInt a, PInt b => a =? b
  | PBool a, PInt b | PInt b, PBool a => bool_int a =? b
  | PStr a, PStr b => String.eqb a b
  | _, _ => false
  end.

(** [x != y] *)
Definition ne (x y : value) : bool := negb (eq x y).

(** [bool(x)], as [if x:] and [not x] take it. *)
Definition truthy (x : value) : bool :=
  match x with
  | PNone => false
  | PBool b => b
  | PInt z => negb (z =? 0)
  | PStr s => negb (String.eqb s EmptyString)
  end.

Definition newline : string := String "010"%char EmptyString.

Definition code (c : ascii) : Z := Z.of_N (N_of_ascii c).

(** Whitespace that [int()] strips, among the code points below 256. *)
Definition isspace (c : ascii) : bool :=
  let n := code c in
  ((9 <=? n) && (n <=? 13)) || (n =? 32) || (n =? 133) || (n =? 160).

Definition isdigit (c : ascii) : bool :=
  let n := code c in (48 <=? n) && (n <=? 57).

Definition digit (c : ascii) : Z := code c - 48.

Fixpoint lstrip (s : string) : string :=
  match s with
  | String c s' => if isspace c then lstrip s' else s
  | EmptyString => EmptyString
  end.

Fixpoint rstrip (s : string) : string :=
  match s with
  | EmptyString => EmptyString
  | String c s' =>
      match rstrip s' with
      | EmptyString => if isspace c then EmptyString else String c EmptyString
      | r => String c r
      end
  end.

Definition strip (s : string) : string := rstrip (lstrip s).

(** The digits of a base-10 literal: single underscores may separate digits;
    [us] tells that the previous character was an underscore. *)
Fixpoint scan_digits (us : bool) (acc : Z) (s : string) : option Z :=
  match s with
  | EmptyString => if us then None else Some acc
  | String c s' =>
      if Ascii.eqb c "_"%char then
        if us then None else scan_digits true acc s'
      else if isdigit c then scan_digits false (10 * acc + digit c) s'
      else None
  end.

Definition digits (s : string) : option Z :=
  match s with
  | EmptyString => None
  | String c _ => if Ascii.eqb c "_"%char then None else scan_digits false 0 s
  end.

(** [int(s)] for a [str]: [None] stands for [ValueError]. *)
Definition int (s : string) : option Z :=
  match strip s with
  | String "+" r => digits r
  | String "-" r => Z.opp <$> digits r
  | r => digits r
  end.

(** [s.split(sep)] for a separator of one character. *)
Fixpoint split (sep : ascii) (s : string) : list string :=
  match s with
  | EmptyString => [EmptyString]
  | String c s' =>
      if Ascii.eqb c sep then EmptyString :: split sep s'
      else match split sep s' with
           | w :: ws => String c w :: ws
           | [] => [String c EmptyString]
           end
  end.

(** [v > w] on tuples of integers: the first differing pair decides; when
    there is none the longer tuple is the greater. *)
Fixpoint tuple_gt (v w : list Z) : bool :=
  match v, w with
  | x :: v', y :: w' => if x =? y then tuple_gt v' w' else y <? x
  | _ :: _, [] => true
  | [], _ => false
  end.

(** [c.lower()] below code point 256: A-Z, and the Latin-1 capitals. *)
Definition lower_char (c : ascii) : ascii :=
  let n := code c in
  if ((65 <=? n) && (n <=? 90))
     || ((192 <=? n) && (n <=? 222) && negb (n =? 215))
  then ascii_of_N (N_of_ascii c + 32) else c.

Fixpoint lower (s : string) : string :=
  match s with
  | EmptyString => EmptyString
  | String c s' => String (lower_char c) (lower s')
  end.

End Py.

Import Py.

(** ** VersionComparator: [UpdaterApp.is_newer_version] *)

(** [tuple(map(int, version.split('.')))]; [None] when the value has no
    [split] (it is not a [str]) or when [int] rejects a component. *)
Definition version_tuple (version : value) : option (list Z) :=
  match version with
  | PStr s => mapM int (split "." s)
  | _ => None
  end.

Definition is_newer_version (version_a version_b : value) : bool :=
  match version_tuple version_a with
  | Some ver_a =>
      match version_tuple version_b with
      | Some ver_b => tuple_gt ver_a ver_b
      | None => ne version_a version_b
      end
  | None => ne version_a version_b
  end.


(** ** Effects

    A computation over a state [S] changes the state and returns or raises;
    what was changed before an exception stays changed. *)

Definition eff (S A : Type) : Type := S -> S * (exn + A).

Definition ret {S A} (a : A) : eff S A := fun s => (s, inr a).
Definition raise {S A} (e : exn) : eff S A := fun s => (s, inl e).
Definition bind {S A B} (m : eff S A) (k : A -> eff S B) : eff S B :=
  fun s => match m s with
           | (s', inr a) => k a s'
           | (s', inl e) => (s', inl e)
           end.

Notation "x <- m ;; k" := (bind m (fun x => k))
  (at level 100, m at next level, right associativity).
Notation "m ;;; k" := (bind m (fun _ => k))
  (at level 100, right associativity).

(** A call that raises or returns without touching the state. *)
Definition lift {S A} (r : exn + A) : eff S A := fun s => (s, r).
Definition modify {S} (f : S -> S) : eff S unit := fun s => (f s, inr tt).
Definition gets {S A} (f : S -> A) : eff S A := fun s => (s, inr (f s)).

(** [try: m  except Exception as e: handler(e)] *)
Definition catch {S A} (m : eff S A) (handler : exn -> eff S A) : eff S A :=
  fun s => match m s with
           | (s', inl e) => handler e s'
           | r => r
           end.

(** [try: m  finally: cleanup] *)
Definition finally {S A} (m : eff S A) (cleanup : S -> S) : eff S A :=
  fun s => let '(s', r) := m s in (cleanup s', r).

(** ** The file system

    A path is the list of its components, innermost first: [os.path.join(d,
    item)] conses the item on [d], and [os.path.dirname] is the tail.  The
    empty path is the root, which is always a directory.  The disk maps the
    paths that exist to what they hold; [fold] is the file system's folding
    of names (the identity on a case-sensitive volume, lower-casing on a
    case-insensitive one) and [denied] the paths the process may not write. *)

Module FS.

Definition path : Type := list string.

Inductive entry : Type :=
  | File (data : string)
  | Dir.

#[global] Instance entry_eq_dec : EqDecision entry.
Proof. solve_decision. Defined.

Abbreviation disk := (gmap path entry).

(** What a directory listing shows: the tree below a directory. *)
#[local] Set Warnings "-register-all".
Inductive node : Type :=
  | NFile (data : string)
  | NDir (entries : list (string * node)).

Abbreviation io := (eff disk).

Definition stat (p : path) (d : disk) : option entry :=
  match p with
  | [] => Some Dir
  | _ => d !! p
  end.

(** [os.path.exists(p)] *)
Definition exists_ (p : path) : io bool :=
  fun d => (d, inr (bool_decide (is_Some (stat p d)))).

Section Volume.
Variable fold : string -> string.
Variable denied : path -> bool.

(** [os.path.join(dir, item)] *)
Definition join (dir : path) (item : string) : path := fold item :: dir.

(** [os.mkdir(p)] *)
Definition mkdir (p : path) : io unit :=
  fun d =>
    match stat p d with
    | Some _ => (d, inl FileExistsError)
    | None =>
        match stat (tail p) d with
        | None => (d, inl FileNotFoundError)
        | Some (File _) => (d, inl NotADirectoryError)
        | Some Dir =>
            if denied p then (d, inl PermissionError)
            else (<[p := Dir]> d, inr tt)
        end
    end.

(** [os.makedirs(p)]: missing ancestors are created first. *)
Fixpoint makedirs (p : path) : io unit :=
  match p with
  | [] => mkdir p
  | _ :: head =>
      head_exists <- exists_ head ;;
      (if head_exists then ret tt
       else fun d => match makedirs head d with
                     | (d', inl FileExistsError) => (d', inr tt)
                     | r => r
                     end) ;;;
      mkdir p
  end.

(** Writing a whole file at [p]. *)
Definition write_file (p : path) (data : string) : io unit :=
  fun d =>
    match stat p d with
    | Some Dir => (d, inl IsADirectoryError)
    | _ =>
        match stat (tail p) d with
        | None => (d, inl FileNotFoundError)
        | Some (File _) => (d, inl NotADirectoryError)
        | Some Dir =>
            if denied p then (d, inl PermissionError)
            else (<[p := File data]> d, inr tt)
        end
    end.

(** [shutil.copy2(src, dst)] of a file holding [data] and named [item]: when
    [dst] is a directory the file goes into it under its own name. *)
Definition copy2 (data : string) (item : string) (dst : path) : io unit :=
  fun d =>
    match stat dst d with
    | Some Dir => write_file (join dst item) data d
    | _ => write_file dst data d
    end.

End Volume.
End FS.

Import FS.

(** ** Installer: [UpdaterApp.copy_with_overwrite] *)

(** [item.lower() == "updater.exe" or item.lower() == "updater.py"] *)
Definition is_self (item : string) : bool :=
  String.eqb (lower item) "updater.exe" || String.eqb (lower item) "updater.py".

Section Merge.
Variable fold : string -> string.
Variable denied : path -> bool.

(** [src_dir] is given by what [os.listdir] and [os.path.isdir] find in it. *)
Fixpoint copy_with_overwrite (src_dir : node) (dst_dir : path) {struct src_dir}
  : io unit :=
  match src_dir with
  | NFile _ => raise NotADirectoryError
  | NDir entries =>
      (fix loop (items : list (string * node)) : io unit :=
         match items with
         | [] => ret tt
         | (item, src_path) :: rest =>
             let dst_path := join fold dst_dir item in
             if is_self item then loop rest
             else
               match src_path with
               | NDir _ =>
                   present <- exists_ dst_path ;;
                   (if present then ret tt else makedirs denied dst_path) ;;;
                   copy_with_overwrite src_path dst_path ;;;
                   loop rest
               | NFile data =>
                   copy2 fold denied data item dst_path ;;;
                   loop rest
               end
         end) entries
  end.

End Merge.

(** ** The network *)

Module Net.

(** A response as [requests] hands it over: the status line, the
    [Content-Length] header when there is one, the body as the chunks
    [iter_content] yields, and the error that breaks the stream after them,
    if any. *)
Record response : Type := {
  status_code : Z;
  content_length : option string;
  chunks : list string;
  broken : option exn
}.

(** [requests.get(url, ...)]: the request raises or a response arrives. *)
Inductive reply : Type :=
  | NoReply (e : exn)
  | Reply (r : response).

(** [response.raise_for_status()]: the client and server errors raise. *)
Definition raise_for_status (r : response) : exn + unit :=
  if (400 <=? status_code r) && (status_code r <? 600)
  then inl (HTTPError (status_code r)) else inr tt.

End Net.

Import Net.

(** A decoded JSON document: an object with scalar members, or anything
    else (a list, a string, a number, [null]), which has no [get]. *)
Inductive json : Type :=
  | JObject (members : gmap string value)
  | JOther.

(** ** Floating point

    [int((downloaded / total_size) * 100)] is computed on binary64 floats. *)

Module Float.

Definition prec : Z := 53.
Definition emax : Z := 1024.

(** An [int] as a float, exact while [|z| <= 2^53]; in that range the true
    division of two ints is the float division of the two. *)
Definition of_int (z : Z) : spec_float := binary_normalize prec emax z 0 false.

(** [int(x)]: truncation towards zero. *)
Definition to_int (x : spec_float) : Z :=
  match x with
  | S754_finite s m e =>
      let v := if 0 <=? e then Z.pos m * 2 ^ e else Z.pos m / 2 ^ (- e) in
      if s then - v else v
  | _ => 0
  end.

Definition percent (downloaded total_size : Z) : Z :=
  to_int (SFmul prec emax
            (SFdiv prec emax (of_int downloaded) (of_int total_size))
            (of_int 100)).

End Float.

(** ** PackageFetcher: [DownloadThread.run] *)

(** The texts shown to the user; a constructor with an argument is an
    f-string with that value interpolated. *)
Inductive message : Type :=
  | Text (s : string)
  | UpdateAvailable (latest_version : value)
  | LatestVersion (current_version : value)
  | CurrentVersion (current_version : value)
  | Downloading (downloaded : Z)
  | ErrorText (e : exn).

(** What the worker emits on its three signals. *)
Inductive event : Type :=
  | status_signal (text : message)
  | progress_signal (progress : Z)
  | completed_signal (success : bool) (result : path + exn).

(** The device behind [download_path]: [open] may fail, and a write fails
    once the file would grow beyond [room] bytes. *)
Record device : Type := {
  open_error : option exn;
  room : Z
}.

Definition len (s : string) : Z := Z.of_nat (String.length s).

Section Download.
(** [percent downloaded total_size] is [int((downloaded / total_size) * 100)]. *)
Variable percent : Z -> Z -> Z.

(** The loop over [response.iter_content]: the events emitted, the bytes in
    the file, and the exception that ended the loop, if any. *)
Fixpoint receive (total_size : Z) (dev : device) (broken : option exn)
    (body : list string) (downloaded : Z) (f : string)
  : list event * string * option exn :=
  match body with
  | [] => ([], f, broken)
  | chunk :: rest =>
      if String.eqb chunk EmptyString then receive total_size dev broken rest downloaded f
      else
        let downloaded := downloaded + len chunk in
        if room dev <? downloaded then ([], f, Some (OSError "No space left on device"))
        else
          let f := f +:+ chunk in
          let shown :=
            (if total_size =? 0 then []
             else [progress_signal (percent downloaded total_size)])
            ++ [status_signal (Downloading downloaded)] in
          let '(evs, f', e) := receive total_size dev broken rest downloaded f in
          (shown ++ evs, f', e)
  end.

(** [int(response.headers.get('content-length', 0))] *)
Definition total_size_of (r : response) : option Z :=
  match content_length r with
  | Some h => int h
  | None => Some 0
  end.

(** [run]: the events emitted, in order, and what [download_path] holds
    afterwards ([file] is what it held before; [None] is no file). *)
Definition run (download_path : path) (answer : reply) (dev : device)
    (file : option string) : list event * option string :=
  let start := [status_signal (Text "Starting download...")] in
  let failed (evs : list event) (file : option string) (e : exn) :=
    (evs ++ [status_signal (ErrorText e); completed_signal false (inr e)], file) in
  match answer with
  | NoReply e => failed start file e
  | Reply response =>
      match raise_for_status response with
      | inl e => failed start file e
      | inr _ =>
          match total_size_of response with
          | None => failed start file ValueError
          | Some total_size =>
              match open_error dev with
              | Some e => failed start file e
              | None =>
                  let '(evs, f, e) :=
                    receive total_size dev (broken response) (chunks response) 0 EmptyString in
                  match e with
                  | Some e => failed (start ++ evs) (Some f) e
                  | None =>
                      (start ++ evs
                       ++ [status_signal (Text "Download completed!");
                           completed_signal true (inl download_path)],
                       Some f)
                  end
              end
          end
      end
  end.

End Download.

(** ** UpdateController: the window [UpdaterApp] *)

Inductive icon : Type := info | success | error | update.

Inductive dialog : Type :=
  | warning (title : string) (text : message)
  | critical (title : string) (text : message)
  | information (title : string) (text : string).

(** The widgets the pipeline touches. *)
Record widgets : Type := {
  status_label : message;
  status_icon : option icon;
  version_label : message;
  notes_content : string;
  notes_frame_visible : bool;
  progress_bar_value : Z;
  progress_bar_visible : bool;
  check_btn_enabled : bool;
  download_btn_enabled : bool;
  splash_visible : bool;
  dialogs : list dialog
}.

(** The attributes of the window; [update_url] and [update_notes] are
    [None] until [check_for_updates] first assigns them, and
    [download_thread] holds the url and the path of the worker last
    started. *)
Record app : Type := {
  config : gmap string value;
  update_available : bool;
  update_url : option value;
  update_notes : option value;
  download_path : path;
  download_thread : option (value * path);
  ui : widgets
}.

Definition with_ui (f : widgets -> widgets) (w : app) : app :=
  {| config := config w; update_available := update_available w;
     update_url := update_url w; update_notes := update_notes w;
     download_path := download_path w; download_thread := download_thread w;
     ui := f (ui w) |}.

Definition setText_status (m : message) (i : option icon) (u : widgets) : widgets :=
  {| status_label := m; status_icon := i; version_label := version_label u;
     notes_content := notes_content u; notes_frame_visible := notes_frame_visible u;
     progress_bar_value := progress_bar_value u;
     progress_bar_visible := progress_bar_visible u;
     check_btn_enabled := check_btn_enabled u;
     download_btn_enabled := download_btn_enabled u;
     splash_visible := splash_visible u; dialogs := dialogs u |}.

Definition setText_version (m : message) (u : widgets) : widgets :=
  {| status_label := status_label u; status_icon := status_icon u; version_label := m;
     notes_content := notes_content u; notes_frame_visible := notes_frame_visible u;
     progress_bar_value := progress_bar_value u;
     progress_bar_visible := progress_bar_visible u;
     check_btn_enabled := check_btn_enabled u;
     download_btn_enabled := download_btn_enabled u;
     splash_visible := splash_visible u; dialogs := dialogs u |}.

Definition setText_notes (s : string) (u : widgets) : widgets :=
  {| status_label := status_label u; status_icon := status_icon u;
     version_label := version_label u;
     notes_content := s; notes_frame_visible := notes_frame_visible u;
     progress_bar_value := progress_bar_value u;
     progress_bar_visible := progress_bar_visible u;
     check_btn_enabled := check_btn_enabled u;
     download_btn_enabled := download_btn_enabled u;
     splash_visible := splash_visible u; dialogs := dialogs u |}.

Definition setVisible_notes (b : bool) (u : widgets) : widgets :=
  {| status_label := status_label u; status_icon := status_icon u;
     version_label := version_label u;
     notes_content := notes_content u; notes_frame_visible := b;
     progress_bar_value := progress_bar_value u;
     progress_bar_visible := progress_bar_visible u;
     check_btn_enabled := check_btn_enabled u;
     download_btn_enabled := download_btn_enabled u;
     splash_visible := splash_visible u; dialogs := dialogs u |}.

(** [QProgressBar.setValue]: a value outside the range 0..100 of the bar is
    ignored. *)
Definition setValue_progress (z : Z) (u : widgets) : widgets :=
  {| status_label := status_label u; status_icon := status_icon u;
     version_label := version_label u;
     notes_content := notes_content u; notes_frame_visible := notes_frame_visible u;
     progress_bar_value :=
       if (0 <=? z) && (z <=? 100) then z else progress_bar_value u;
     progress_bar_visible := progress_bar_visible u;
     check_btn_enabled := check_btn_enabled u;
     download_btn_enabled := download_btn_enabled u;
     splash_visible := splash_visible u; dialogs := dialogs u |}.

Definition setVisible_progress (b : bool) (u : widgets) : widgets :=
  {| status_label := status_label u; status_icon := status_icon u;
     version_label := version_label u;
     notes_content := notes_content u; notes_frame_visible := notes_frame_visible u;
     progress_bar_value := progress_bar_value u;
     progress_bar_visible := b;
     check_btn_enabled := check_btn_enabled u;
     download_btn_enabled := download_btn_enabled u;
     splash_visible := splash_visible u; dialogs := dialogs u |}.

Definition setEnabled_check (b : bool) (u : widgets) : widgets :=
  {| status_label := status_label u; status_icon := status_icon u;
     version_label := version_label u;
     notes_content := notes_content u; notes_frame_visible := notes_frame_visible u;
     progress_bar_value := progress_bar_value u;
     progress_bar_visible := progress_bar_visible u;
     check_btn_enabled := b;
     download_btn_enabled := download_btn_enabled u;
     splash_visible := splash_visible u; dialogs := dialogs u |}.

Definition setEnabled_download (b : bool) (u : widgets) : widgets :=
  {| status_label := status_label u; status_icon := status_icon u;
     version_label := version_label u;
     notes_content := notes_content u; notes_frame_visible := notes_frame_visible u;
     progress_bar_value := progress_bar_value u;
     progress_bar_visible := progress_bar_visible u;
     check_btn_enabled := check_btn_enabled u;
     download_btn_enabled := b;
     splash_visible := splash_visible u; dialogs := dialogs u |}.

(** [if hasattr(self, 'splash') and self.splash.isVisible(): self.splash.finish(self)] *)
Definition finish_splash (u : widgets) : widgets :=
  {| status_label := status_label u; status_icon := status_icon u;
     version_label := version_label u;
     notes_content := notes_content u; notes_frame_visible := notes_frame_visible u;
     progress_bar_value := progress_bar_value u;
     progress_bar_visible := progress_bar_visible u;
     check_btn_enabled := check_btn_enabled u;
     download_btn_enabled := download_btn_enabled u;
     splash_visible := false; dialogs := dialogs u |}.

(** A [QMessageBox] shown to the user. *)
Definition show (d : dialog) (u : widgets) : widgets :=
  {| status_label := status_label u; status_icon := status_icon u;
     version_label := version_label u;
     notes_content := notes_content u; notes_frame_visible := notes_frame_visible u;
     progress_bar_value := progress_bar_value u;
     progress_bar_visible := progress_bar_visible u;
     check_btn_enabled := check_btn_enabled u;
     download_btn_enabled := download_btn_enabled u;
     splash_visible := splash_visible u; dialogs := dialogs u ++ [d] |}.

Definition set_config (c : gmap string value) (w : app) : app :=
  {| config := c; update_available := update_available w;
     update_url := update_url w; update_notes := update_notes w;
     download_path := download_path w; download_thread := download_thread w;
     ui := ui w |}.

Definition set_update_available (b : bool) (w : app) : app :=
  {| config := config w; update_available := b;
     update_url := update_url w; update_notes := update_notes w;
     download_path := download_path w; download_thread := download_thread w;
     ui := ui w |}.

Definition set_update_url (v : value) (w : app) : app :=
  {| config := config w; update_available := update_available w;
     update_url := Some v; update_notes := update_notes w;
     download_path := download_path w; download_thread := download_thread w;
     ui := ui w |}.

Definition set_update_notes (v : value) (w : app) : app :=
  {| config := config w; update_available := update_available w;
     update_url := update_url w; update_notes := Some v;
     download_path := download_path w; download_thread := download_thread w;
     ui := ui w |}.

(** [DownloadThread(url, download_path)] created, connected and started. *)
Definition start_download_thread (url : value) (w : app) : app :=
  {| config := config w; update_available := update_available w;
     update_url := update_url w; update_notes := update_notes w;
     download_path := download_path w;
     download_thread := Some (url, download_path w);
     ui := ui w |}.

(** [set_status(message, icon_type)] *)
Definition set_status (m : message) (icon_type : icon) (w : app) : app :=
  with_ui (setText_status m (Some icon_type)) w.

(** A step that reads the state and may raise. *)
Definition attempt {S A} (f : S -> exn + A) : eff S A := fun s => (s, f s).

(** [requests.get(url, timeout=10)] without [stream=True]: the body is read
    before the call returns. *)
Definition fetch (answer : reply) : exn + response :=
  match answer with
  | NoReply e => inl e
  | Reply r => match broken r with Some e => inl e | None => inr r end
  end.

(** [info.get(key, default)] on a decoded document. *)
Definition json_get (info : json) (key : string) (default : value) : exn + value :=
  match info with
  | JObject members => inr (get members key default)
  | JOther => inl AttributeError
  end.

(** [QLabel.setText] takes a [str] and nothing else. *)
Definition as_text (v : value) : exn + string :=
  match v with
  | PStr s => inr s
  | _ => inl TypeError
  end.

Section Controller.
(** [json.loads]; [None] stands for [JSONDecodeError]. *)
Variable json_loads : string -> option json.

(** [response.json()] *)
Definition response_json (r : response) : exn + json :=
  match json_loads (String.concat EmptyString (chunks r)) with
  | Some j => inr j
  | None => inl ValueError
  end.

(** The [try] block of [check_for_updates]; [network] answers the request
    for a url. *)
Definition check_body (network : value -> reply) : eff app unit :=
  url <- attempt (fun w => getitem (config w) "update_url") ;;
  response <- lift (fetch (network url)) ;;
  lift (raise_for_status response) ;;;
  update_info <- lift (response_json response) ;;
  latest_version <- lift (json_get update_info "version" PNone) ;;
  current_version <- attempt (fun w => getitem (config w) "current_version") ;;
  download_url <- lift (json_get update_info "download_url" PNone) ;;
  modify (set_update_url download_url) ;;;
  notes <- lift (json_get update_info "notes" (PStr EmptyString)) ;;
  modify (set_update_notes notes) ;;;
  modify (with_ui (setText_version (CurrentVersion current_version))) ;;;
  modify (with_ui finish_splash) ;;;
  if is_newer_version latest_version current_version then
    modify (set_status (UpdateAvailable latest_version) update) ;;;
    modify (with_ui (setEnabled_download true)) ;;;
    modify (set_update_available true) ;;;
    if truthy notes then
      text <- lift (as_text notes) ;;
      modify (with_ui (setText_notes text)) ;;;
      modify (with_ui (setVisible_notes true))
    else ret tt
  else
    modify (set_status (LatestVersion current_version) success) ;;;
    modify (set_update_available false).

Definition check_for_updates (network : value -> reply) : eff app unit :=
  modify (set_status (Text "Checking for updates...") info) ;;;
  modify (with_ui (setEnabled_download false)) ;;;
  modify (with_ui (setVisible_notes false)) ;;;
  catch (check_body network)
    (fun e =>
       modify (set_status (Text "Error checking for updates") error) ;;;
       modify (with_ui finish_splash) ;;;
       modify (with_ui (show (warning "Update Check Failed" (ErrorText e))))).

(** [if not self.update_available or not self.update_url: return] reads
    [update_url] only when an update is available. *)
Definition download_update : eff app unit :=
  available <- gets update_available ;;
  if negb available then ret tt
  else
    url <- attempt (fun w => match update_url w with
                             | Some u => inr u
                             | None => inl AttributeError
                             end) ;;
    if negb (truthy url) then ret tt
    else
      modify (with_ui (setValue_progress 0)) ;;;
      modify (with_ui (setVisible_progress true)) ;;;
      modify (with_ui (setEnabled_check false)) ;;;
      modify (with_ui (setEnabled_download false)) ;;;
      modify (start_download_thread url).

Definition update_progress (progress : Z) : eff app unit :=
  modify (with_ui (setValue_progress progress)).

Definition update_status (text : message) : eff app unit :=
  modify (with_ui (fun u => setText_status text (status_icon u) u)).

(** ** Installer: [UpdaterApp.install_update] *)

(** The window, the disk that holds the installation, and the configuration
    file [updater_config.json] with the dictionary last dumped to it. *)
Record world : Type := {
  win : app;
  live : disk;
  config_file : option (gmap string value)
}.

Definition on_win {A} (m : eff app A) : eff world A :=
  fun s => let '(w, r) := m (win s) in
           ({| win := w; live := live s; config_file := config_file s |}, r).

Definition on_live {A} (m : eff disk A) : eff world A :=
  fun s => let '(d, r) := m (live s) in
           ({| win := win s; live := d; config_file := config_file s |}, r).

(** [with open(CONFIG_FILE, 'w') as f: json.dump(self.config, f, indent=4)];
    [refused] is the error of [open], if it fails. *)
Definition save_config (refused : option exn) : eff world unit :=
  fun s => match refused with
           | Some e => (s, inl e)
           | None => ({| win := win s; live := live s;
                         config_file := Some (config (win s)) |}, inr tt)
           end.

(** The staging area after [os.makedirs(extract_dir)] and
    [zip_ref.extractall(extract_dir)]: either of them failed, or
    [extract_dir] holds a tree. *)
Inductive staging : Type :=
  | MakedirsFailed (e : exn)
  | ExtractFailed (e : exn)
  | Extracted (extract_dir : node).

Section Volume.
Variable fold : string -> string.
Variable denied : path -> bool.

(** What [os.path.join(extract_dir, name)] names in the staging area. *)
Definition staged (extract_dir : node) (name : string) : option node :=
  match extract_dir with
  | NDir entries =>
      snd <$> List.find (fun e => String.eqb (fold (fst e)) (fold name)) entries
  | NFile _ => None
  end.

(** The inner [try] of [install_update]: read [version.json], then save the
    configuration. *)
Definition update_version (extract_dir : node) (refused : option exn)
  : eff world unit :=
  match staged extract_dir "version.json" with
  | None => ret tt
  | Some (NDir _) => raise IsADirectoryError
  | Some (NFile data) =>
      match json_loads data with
      | None => raise ValueError
      | Some JOther => raise AttributeError
      | Some (JObject version_info) =>
          current <- attempt (fun s => getitem (config (win s)) "current_version") ;;
          on_win (modify (fun w =>
            set_config (<["current_version" := get version_info "version" current]>
                          (config w)) w))
      end
  end ;;;
  save_config refused.

Definition install_update (app_dir : path) (stage : staging)
    (refused : option exn) : eff world unit :=
  finally
    (catch
       (extract_dir <- lift (match stage with
                             | MakedirsFailed e | ExtractFailed e => inl e
                             | Extracted t => inr t
                             end) ;;
        on_live (copy_with_overwrite fold denied extract_dir app_dir) ;;;
        catch (update_version extract_dir refused) (fun e => ret tt) ;;;
        on_win (modify (set_status (Text "Update installed successfully!") success)) ;;;
        on_win (modify (with_ui (show (information "Update Complete"
          ("The application has been updated successfully!" +:+ newline
           +:+ "Please restart the application."))))) ;;;
        on_win (modify (with_ui (setEnabled_check true))))
       (fun e =>
          on_win (modify (set_status (Text "Installation failed!") error)) ;;;
          on_win (modify (with_ui (show (critical "Installation Failed" (ErrorText e))))) ;;;
          on_win (modify (with_ui (setEnabled_check true))) ;;;
          on_win (modify (with_ui (setEnabled_download true)))))
    (fun s => {| win := with_ui (setVisible_progress false) (win s);
                 live := live s; config_file := config_file s |}).

(** [handle_download_complete(success, result)]: the slot of
    [completed_signal]. *)
Definition handle_download_complete (app_dir : path) (stage : staging)
    (refused : option exn) (ok : bool) (result : path + exn) : eff world unit :=
  if ok then
    on_win (modify (set_status (Text "Installing update...") info)) ;;;
    install_update app_dir stage refused
  else
    on_win (modify (set_status (Text "Download failed!") error)) ;;;
    on_win (modify (with_ui (show (critical "Download Failed"
      (match result with inr e => ErrorText e | inl _ => Text EmptyString end))))) ;;;
    on_win (modify (with_ui (setVisible_progress false))) ;;;
    on_win (modify (with_ui (setEnabled_check true))) ;;;
    on_win (modify (with_ui (setEnabled_download true))).

(** The slots [download_update] connects to the signals of the worker. *)
Definition deliver (app_dir : path) (stage : staging) (refused : option exn)
    (e : event) : eff world unit :=
  match e with
  | progress_signal progress => on_win (update_progress progress)
  | status_signal text => on_win (update_status text)
  | completed_signal ok result =>
      handle_download_complete app_dir stage refused ok result
  end.

(** The events of a worker handled in the order they were emitted. *)
Fixpoint deliver_all (app_dir : path) (stage : staging) (refused : option exn)
    (evs : list event) : eff world unit :=
  match evs with
  | [] => ret tt
  | e :: rest =>
      deliver app_dir stage refused e ;;;
      deliver_all app_dir stage refused rest
  end.

End Volume.
End Controller.

(** ** The window at start: [UpdaterApp.__init__], [setup_ui], [load_config] *)

Definition default_config : gmap string value :=
  <["app_name" := PStr "YourApp"]>
  (<["current_version" := PStr "1.0.0"]>
  (<["update_url" := PStr "https://yourusername.github.io/app-updates/latest.json"]>
  (<["website_url" := PStr "https://yourusername.github.io/app-updates/"]> ∅))).

Definition init (temp_dir : path) (config : gmap string value) : app :=
  {| config := config;
     update_available := false;
     update_url := None;
     update_notes := None;
     download_path := "update.zip" :: temp_dir;
     download_thread := None;
     ui := {| status_label := Text "Checking for updates...";
              status_icon := None;
              version_label := Text "Current version: Checking...";
              notes_content := EmptyString;
              notes_frame_visible := false;
              progress_bar_value := -1;
              progress_bar_visible := false;
              check_btn_enabled := true;
              download_btn_enabled := false;
              splash_visible := true;
              dialogs := [] |} |}.

(** ** Vocabulary of the specification *)

Module Spec.









(** The name of the updater's own executable or source file, whatever the
    case of its letters. *)
Definition own_name (name : string) : Prop :=
  lower name = "updater.exe" \/ lower name = "updater.py".

(** A path whose last component is such a name. *)
Definition own_path (p : path) : Prop :=
  match p with
  | name :: _ => own_name name
  | [] => False
  end.

(** A tree without the entries that carry such a name, at every depth. *)
Fixpoint prune (n : node) : node :=
  match n with
  | NFile data => NFile data
  | NDir entries =>
      NDir (List.filter (fun e => negb (is_self e.1))
              (List.map (fun e => (e.1, prune e.2)) entries))
  end.

(** The disk [d'] holds under every such path what [d] held, and every
    path that exists in [d] exists in [d']. *)
Definition spares_own (d d' : disk) : Prop :=
  forall p, own_path p -> d' !! p = d !! p.

Definition keeps_paths (d d' : disk) : Prop :=
  forall p, is_Some (stat p d) -> is_Some (stat p d').

(** What a step of the merge may do to the disk. *)
Definition gentle (d d' : disk) : Prop := spares_own d d' /\ keeps_paths d d'.

(** HTTP status classes. *)
Definition success_status (code : Z) : Prop := 200 <= code < 300.
Definition error_status (code : Z) : Prop := 400 <= code < 600.

(** The terminal events of a download, and what the progress events carry. *)
Definition terminal (e : event) : Prop :=
  match e with
  | completed_signal _ _ => True
  | _ => False
  end.

Definition byte_count (e : event) : option Z :=
  match e with
  | status_signal (Downloading downloaded) => Some downloaded
  | _ => None
  end.

Definition percentage (e : event) : option Z :=
  match e with
  | progress_signal progress => Some progress
  | _ => None
  end.

Definition byte_counts (evs : list event) : list Z := omap byte_count evs.
Definition percentages (evs : list event) : list Z := omap percentage evs.



(** The percentage in exact arithmetic, rounded towards zero. *)
Definition exact_percent (downloaded total_size : Z) : Z :=
  Z.quot (downloaded * 100) total_size.

(** Release notes the window can show: nothing to show, or a text. *)
Definition showable (notes : value) : Prop :=
  truthy notes = false \/ exists text, notes = PStr text.

(** [current_version] as the configuration file holds it. *)
Definition persisted_version (s : world) : option value :=
  config_file s ≫= (fun c => c !! "current_version").

End Spec.

(** ** Vocabulary of the further properties *)

(** Every path of [d] is in [d'] what it was in [d], a file or a directory;
    the data of a file may differ. *)
Definition same_kind (d d' : disk) : Prop :=
  forall p,
    match stat p d with
    | Some Dir => stat p d' = Some Dir
    | Some (File _) => exists data, stat p d' = Some (File data)
    | None => True
    end.

(** [p] lies strictly below the directory [dir]. *)
Definition below (dir p : path) : Prop :=
  exists q, q <> [] /\ p = q ++ dir.

Section Listing.
Variable fold : string -> string.

(** The paths a merge of [n] into [dst] may write: those at or below the
    destination of an entry of [n] that is not skipped. *)
Definition touched (n : node) (dst : path) (p : path) : Prop :=
  match n with
  | NFile _ => False
  | NDir entries =>
      exists e, e ∈ entries /\ is_self e.1 = false /\ join fold dst e.1 `suffix_of` p
  end.

(** The files of the tree [n] that a merge into [dst] does not skip, each
    with the path it is copied to. *)
Fixpoint files_of (n : node) (dst : path) : list (path * string) :=
  match n with
  | NFile _ => []
  | NDir entries =>
      (fix go (items : list (string * node)) : list (path * string) :=
         match items with
         | [] => []
         | (item, child) :: rest =>
             (if is_self item then []
              else match child with
                   | NFile data => [(join fold dst item, data)]
                   | NDir _ => files_of child (join fold dst item)
                   end) ++ go rest
         end) entries
  end.

(** A tree as a listing of a volume gives it: in every directory the names
    are distinct after folding. *)
Fixpoint listed (n : node) : Prop :=
  match n with
  | NFile _ => True
  | NDir entries =>
      NoDup ((fun e => fold e.1) <$> entries)
      /\ (fix all (items : list (string * node)) : Prop :=
            match items with
            | [] => True
            | e :: rest => listed e.2 /\ all rest
            end) entries
  end.

End Listing.

(** [d'] differs from [d] only at paths that satisfy [P], and there only
    by new paths and new data of files. *)
Definition changes_within (P : path -> Prop) (d d' : disk) : Prop :=
  (forall p, ~ P p -> d' !! p = d !! p) /\ same_kind d d'.

(** The body of a response: its chunks put together. *)
Definition body (r : response) : string := String.concat EmptyString (chunks r).

(** [f] is the beginning of [s]. *)
Definition starts (f s : string) : Prop := exists rest, s = f +:+ rest.

(** The download is reported complete. *)
Definition completed (evs : list event) : Prop :=
  exists result, completed_signal true result ∈ evs.

(** Nothing stands in the way of a download: a response arrives, its status
    is no error, its [Content-Length], if any, is an integer, the file
    opens, the stream does not break and the body fits on the device. *)
Definition unhindered (answer : reply) (dev : device) : Prop :=
  exists r total_size,
    answer = Reply r /\ ~ Spec.error_status (status_code r)
    /\ total_size_of r = Some total_size /\ open_error dev = None
    /\ broken r = None /\ len (body r) <= room dev.

(** ** [UpdaterApp.load_config] *)

Section Config.
(** [json.loads] as above, and [json.dumps(config, indent=4)]. *)
Variable json_loads : string -> option json.
Variable json_dumps : gmap string value -> string.

(** What [load_config] returns, what [updater_config.json] holds afterwards
    ([None]: no file), and the error shown in the warning dialog, if any. *)
Record loaded : Type := {
  loaded_config : json;
  loaded_file : option string;
  loaded_error : option exn
}.

(** [file] is the text of [updater_config.json] ([None]: it does not
    exist); [unreadable] and [unwritable] are the errors of opening it for
    reading and for writing, if they fail. *)
Definition load_config (unreadable unwritable : option exn) (file : option string)
  : loaded :=
  let failed (e : exn) :=
    {| loaded_config := JObject default_config; loaded_file := file;
       loaded_error := Some e |} in
  match file with
  | Some text =>
      match unreadable with
      | Some e => failed e
      | None =>
          match json_loads text with
          | Some document =>
              {| loaded_config := document; loaded_file := file;
                 loaded_error := None |}
          | None => failed ValueError
          end
      end
  | None =>
      match unwritable with
      | Some e => failed e
      | None =>
          {| loaded_config := JObject default_config;
             loaded_file := Some (json_dumps default_config);
             loaded_error := None |}
      end
  end.

End Config.

(** The manifest as [check_for_updates] obtains it, up to the document that
    [update_info.get] is called on; [network] answers the request. *)
Definition manifest (json_loads : string -> option json) (network : value -> reply)
    (w : app) : exn + gmap string value :=
  match config w !! "update_url" with
  | None => inl (KeyError "update_url")
  | Some url =>
      match fetch (network url) with
      | inl e => inl e
      | inr response =>
          match raise_for_status response with
          | inl e => inl e
          | inr _ =>
              match response_json json_loads response with
              | inl e => inl e
              | inr JOther => inl AttributeError
              | inr (JObject members) => inr members
              end
          end
      end
  end.

(** * Properties *)

Import Spec.

(** ** VersionComparator *)

Section Version.













Lemma mapM_int_rejects l c : c ∈ l -> int c = None -> mapM int l = None.
Proof.
  intros Hin Hc. destruct (mapM int l) as [zs|] eqn:E; [|done].
  assert (is_Some (mapM int l)) as Hs by eauto.
  rewrite mapM_is_Some, Forall_forall in Hs.
  destruct (Hs c Hin) as [z Hz]. congruence.
Qed.

Example int_examples :
  int " 12 " = Some 12 /\ int "-1_0" = Some (-10) /\ int "+7" = Some 7
  /\ int "007" = Some 7 /\ int "1__0" = None /\ int "_1" = None
  /\ int "1_" = None /\ int "+" = None /\ int "1 2" = None
  /\ int "1a" = None /\ int EmptyString = None.
Proof. by vm_compute. Qed.

Example split_examples :
  split "." "1.2.10" = ["1"; "2"; "10"]
  /\ split "." "1..2" = ["1"; EmptyString; "2"]
  /\ split "." EmptyString = [EmptyString].
Proof. by vm_compute. Qed.

Example version_tuple_examples :
  version_tuple (PStr "1.2.10") = Some [1; 2; 10]
  /\ version_tuple (PStr "1.2-beta") = None
  /\ version_tuple (PStr "1..2") = None
  /\ version_tuple PNone = None.
Proof. by vm_compute. Qed.







(** C6.  When a component of [a] or a component of [b] is rejected by
    [int], [is_newer_version a b] is the string inequality [a != b]. *)
Theorem is_newer_fallback (a b : string) :
  (exists c, c ∈ split "." a /\ int c = None)
  \/ (exists c, c ∈ split "." b /\ int c = None) ->
  is_newer_version (PStr a) (PStr b) = negb (String.eqb a b).
Proof.
  intros H. unfold is_newer_version, version_tuple.
  destruct H as [(c & Hin & Hc)|(c & Hin & Hc)];
    rewrite (mapM_int_rejects _ _ Hin Hc); [done|].
  by destruct (mapM int (split "." a)).
Qed.

Lemma is_newer_fallback_witness :
  is_newer_version (PStr "1.x") (PStr "1.0") = negb (String.eqb "1.x" "1.0").
Proof.
  apply (is_newer_fallback "1.x" "1.0").
  left. exists "x". split; [|reflexivity].
  vm_compute. apply list_elem_of_In. simpl. auto.
Defined.

End Version.

(** ** Merge-install *)

Lemma is_self_own_name name : is_self name = true <-> own_name name.
Proof.
  unfold is_self, own_name. rewrite orb_true_iff.
  by rewrite !String.eqb_eq.
Qed.

Lemma node_induction (P : node -> Prop) :
  (forall data, P (NFile data)) ->
  (forall entries, Forall (fun e => P e.2) entries -> P (NDir entries)) ->
  forall n, P n.
Proof.
  intros Hfile Hdir.
  fix IH 1. intros [data|entries]; [apply Hfile|].
  apply Hdir. induction entries as [|[item child] rest IHrest]; constructor.
  - apply IH.
  - apply IHrest.
Qed.

Section MergeProperties.
Variable fold : string -> string.
Variable denied : path -> bool.
(** Folding a name does not change whether it is the updater's own: the two
    volumes of interest, case-sensitive and case-insensitive, are such. *)
Hypothesis fold_self : forall name, is_self (fold name) = is_self name.

Lemma gentle_refl d : gentle d d.
Proof. split; intros p Hp; [reflexivity | exact Hp]. Qed.

Lemma gentle_trans d1 d2 d3 : gentle d1 d2 -> gentle d2 d3 -> gentle d1 d3.
Proof.
  intros [H1 K1] [H2 K2]. split.
  - intros p Hp. by rewrite (H2 p Hp), (H1 p Hp).
  - intros p Hp. by apply K2, K1.
Qed.

Lemma gentle_insert d p x :
  ~ own_path p -> gentle d (<[p := x]> d).
Proof.
  intros Hp. split.
  - intros q Hq. apply lookup_insert_ne. by intros ->.
  - intros q Hq. destruct q as [|n q]; [done|]. simpl in *.
    destruct (decide (p = n :: q)) as [->|Hne].
    + rewrite lookup_insert_eq. eauto.
    + by rewrite lookup_insert_ne.
Qed.

Lemma mkdir_gentle p d : ~ own_path p -> gentle d (mkdir denied p d).1.
Proof.
  intros Hp. unfold mkdir.
  destruct (stat p d); [apply gentle_refl|].
  destruct (stat (tail p) d) as [[]|]; try apply gentle_refl.
  destruct (denied p); [apply gentle_refl|]. by apply gentle_insert.
Qed.

Lemma mkdir_creates p d d' :
  mkdir denied p d = (d', inr tt) -> is_Some (stat p d').
Proof.
  unfold mkdir. destruct (stat p d) eqn:E; [done|].
  destruct (stat (tail p) d) as [[]|]; try done.
  destruct (denied p); [done|]. intros [= <-].
  destruct p; [done|]. simpl. rewrite lookup_insert_eq. eauto.
Qed.

Lemma makedirs_below name head d :
  is_Some (stat head d) ->
  makedirs denied (name :: head) d = mkdir denied (name :: head) d.
Proof.
  intros H. simpl. unfold bind, exists_.
  by rewrite (bool_decide_eq_true_2 _ H).
Qed.

Lemma write_file_gentle p data d :
  ~ own_path p -> gentle d (write_file denied p data d).1.
Proof.
  intros Hp. unfold write_file.
  destruct (stat p d) as [[]|];
    destruct (stat (tail p) d) as [[]|]; try apply gentle_refl;
    destruct (denied p); try apply gentle_refl; by apply gentle_insert.
Qed.

Lemma join_not_own dir item : is_self item = false -> ~ own_path (join fold dir item).
Proof.
  intros H Hown. simpl in Hown. apply is_self_own_name in Hown.
  rewrite fold_self in Hown. congruence.
Qed.

Lemma copy2_gentle data item dst d :
  is_self item = false -> ~ own_path dst ->
  gentle d (copy2 fold denied data item dst d).1.
Proof.
  intros Hitem Hdst. unfold copy2.
  destruct (stat dst d) as [[]|]; try by apply write_file_gentle.
  apply write_file_gentle. by apply join_not_own.
Qed.

Lemma copy_nil dst_dir : copy_with_overwrite fold denied (NDir []) dst_dir = ret tt.
Proof. reflexivity. Qed.

Lemma copy_cons item child rest dst_dir :
  copy_with_overwrite fold denied (NDir ((item, child) :: rest)) dst_dir
  = let dst_path := join fold dst_dir item in
    let loop := copy_with_overwrite fold denied (NDir rest) dst_dir in
    if is_self item then loop
    else match child with
         | NDir _ =>
             present <- exists_ dst_path ;;
             (if present then ret tt else makedirs denied dst_path) ;;;
             copy_with_overwrite fold denied child dst_path ;;;
             loop
         | NFile data => copy2 fold denied data item dst_path ;;; loop
         end.
Proof. reflexivity. Qed.

#[local] Arguments copy_with_overwrite : simpl never.
#[local] Arguments makedirs : simpl never.
#[local] Arguments join : simpl never.

Lemma ensure_dir_gentle name dst_dir d :
  is_Some (stat dst_dir d) -> ~ own_path (join fold dst_dir name) ->
  exists d1 r,
    (present <- exists_ (join fold dst_dir name) ;;
     if present then ret tt else makedirs denied (join fold dst_dir name)) d
    = (d1, r)
    /\ gentle d d1
    /\ (r = inr tt -> is_Some (stat (join fold dst_dir name) d1)).
Proof.
  intros Hdst Hnew. unfold bind, exists_. case_bool_decide as Hex.
  - exists d, (inr tt). split; [done|]. split; [apply gentle_refl | done].
  - unfold join. rewrite (makedirs_below _ _ _ Hdst).
    destruct (mkdir denied (fold name :: dst_dir) d) as [d1 r] eqn:E.
    exists d1, r. split; [done|]. split.
    + pose proof (mkdir_gentle (fold name :: dst_dir) d Hnew) as G.
      by rewrite E in G.
    + intros ->. by apply (mkdir_creates _ _ _ E).
Qed.

Lemma copy_with_overwrite_gentle src_dir :
  forall dst_dir d,
    is_Some (stat dst_dir d) ->
    gentle d (copy_with_overwrite fold denied src_dir dst_dir d).1.
Proof.
  induction src_dir as [data|entries IH] using node_induction;
    intros dst_dir d Hdst; [apply gentle_refl|].
  revert d Hdst.
  induction IH as [|[item child] rest Hchild _ IHrest]; intros d Hdst;
    [apply gentle_refl|].
  simpl in Hchild. rewrite copy_cons. cbv zeta.
  destruct (is_self item) eqn:Hitem; [by apply IHrest|].
  pose proof (join_not_own dst_dir item Hitem) as Hnew.
  destruct child as [data|sub].
  - unfold bind.
    pose proof (copy2_gentle data item (join fold dst_dir item) d Hitem Hnew) as G.
    destruct (copy2 fold denied data item (join fold dst_dir item) d)
      as [d1 [e|[]]]; [exact G|].
    eapply gentle_trans; [exact G|]. apply IHrest. by apply G.
  - destruct (ensure_dir_gentle item dst_dir d Hdst Hnew)
      as (d1 & r & E & G1 & Hmade).
    unfold bind in E |- *. unfold exists_ in E |- *. rewrite E.
    destruct r as [e|[]]; [exact G1|].
    pose proof (Hchild (join fold dst_dir item) d1 (Hmade eq_refl)) as G2.
    destruct (copy_with_overwrite fold denied (NDir sub) (join fold dst_dir item) d1)
      as [d2 [e|[]]]; simpl in G2.
    + by eapply gentle_trans.
    + eapply gentle_trans; [exact G1|]. eapply gentle_trans; [exact G2|].
      apply IHrest. by apply G2, G1.
Qed.

Lemma copy_with_overwrite_prune src_dir :
  forall dst_dir d,
    copy_with_overwrite fold denied (prune src_dir) dst_dir d
    = copy_with_overwrite fold denied src_dir dst_dir d.
Proof.
  induction src_dir as [data|entries IH] using node_induction;
    intros dst_dir d; [reflexivity|].
  revert d.
  induction IH as [|[item child] rest Hchild _ IHrest]; intros d; [reflexivity|].
  simpl in Hchild, IHrest |- *. rewrite copy_cons. cbv zeta.
  destruct (is_self item) eqn:Hitem; simpl; [exact (IHrest d)|].
  rewrite copy_cons, Hitem. cbv zeta.
  destruct child as [data|sub].
  - simpl. unfold bind.
    destruct (copy2 fold denied data item (join fold dst_dir item) d)
      as [d1 [e|[]]]; [done | apply IHrest].
  - destruct (prune (NDir sub)) as [|pruned] eqn:Ep; [discriminate Ep|].
    unfold bind.
    destruct (exists_ (join fold dst_dir item) d) as [d0 [e|present]]; [done|].
    destruct ((if present then ret () else makedirs denied (join fold dst_dir item)) d0)
      as [d1 [e|[]]]; [done|].
    rewrite (Hchild (join fold dst_dir item) d1).
    destruct (copy_with_overwrite fold denied (NDir sub) (join fold dst_dir item) d1)
      as [d2 [e|[]]]; [done | apply IHrest].
Qed.

(** C2.  Merging any source tree into an existing directory leaves every
    path whose name is the updater's own executable or source file (in any
    case of letters, at any depth) holding what it held, whether the merge
    completes or raises; and the merge does what it would do on the tree
    with those entries removed, so they are skipped. *)
Theorem merge_spares_updater (src_dir : node) (dst_dir : path) (d : disk) :
  is_Some (stat dst_dir d) ->
  spares_own d (copy_with_overwrite fold denied src_dir dst_dir d).1
  /\ copy_with_overwrite fold denied src_dir dst_dir d
     = copy_with_overwrite fold denied (prune src_dir) dst_dir d.
Proof.
  intros Hdst. split.
  - by apply copy_with_overwrite_gentle.
  - symmetry. apply copy_with_overwrite_prune.
Qed.

End MergeProperties.

Lemma lower_char_idemp c : lower_char (lower_char c) = lower_char c.
Proof. by destruct c as [[] [] [] [] [] [] [] []]. Qed.

Lemma lower_idemp s : lower (lower s) = lower s.
Proof.
  induction s as [|c s IH]; [done|]. simpl. by rewrite lower_char_idemp, IH.
Qed.

(** A case-insensitive volume folds names with [lower]. *)
Lemma lower_fold_self name : is_self (lower name) = is_self name.
Proof. unfold is_self. by rewrite lower_idemp. Qed.

Lemma merge_spares_updater_witness :
  let src_dir :=
    NDir [("app.txt", NFile "new");
          ("Updater.EXE", NFile "other");
          ("lib", NDir [("UPDATER.py", NFile "other"); ("m.py", NFile "new")])] in
  let d : disk :=
    <[["app"] := Dir]> (<[["updater.exe"; "app"] := File "own"]>
    (<[["lib"; "app"] := Dir]> (<[["updater.py"; "lib"; "app"] := File "own"]> ∅))) in
  let d' := (copy_with_overwrite lower (fun _ => false) src_dir ["app"] d).1 in
  is_Some (stat ["app"] d)
  /\ spares_own d d'
  /\ d' !! ["updater.exe"; "app"] = Some (File "own")
  /\ d' !! ["updater.py"; "lib"; "app"] = Some (File "own")
  /\ d' !! ["m.py"; "lib"; "app"] = Some (File "new").
Proof.
  intros src_dir d d'.
  assert (is_Some (stat ["app"] d)) as Hdst by (vm_compute; eauto).
  split; [exact Hdst|]. split; [|by vm_compute].
  exact (proj1 (merge_spares_updater lower (fun _ => false) lower_fold_self
                  src_dir ["app"] d Hdst)).
Defined.

(** ** PackageFetcher *)

Lemma len_nonneg s : 0 <= len s.
Proof. unfold len. lia. Qed.


Section DownloadProperties.
Variable percent : Z -> Z -> Z.
(** Rounding is monotone, so the float computation of the percentage is
    monotone in the byte count for a positive total. *)
Hypothesis percent_mono :
  forall total_size d d',
    0 < total_size -> 0 <= d <= d' -> percent d total_size <= percent d' total_size.

Lemma receive_no_terminal total_size dev broken body :
  forall downloaded f,
    Forall (fun e => ~ terminal e)
      (receive percent total_size dev broken body downloaded f).1.1.
Proof.
  induction body as [|chunk rest IH]; intros downloaded f; simpl; [constructor|].
  destruct (String.eqb chunk EmptyString); [apply IH|].
  destruct (room dev <? downloaded + len chunk); [constructor|].
  specialize (IH (downloaded + len chunk) (f +:+ chunk)).
  destruct (receive percent total_size dev broken rest _ _) as [[evs f'] e].
  simpl in *. apply Forall_app. split; [|exact IH].
  destruct (total_size =? 0); repeat constructor; simpl; tauto.
Qed.



Lemma receive_percentages_unknown dev broken body :
  forall downloaded f,
    percentages (receive percent 0 dev broken body downloaded f).1.1 = [].
Proof.
  induction body as [|chunk rest IH]; intros downloaded f; simpl; [done|].
  destruct (String.eqb chunk EmptyString); [apply IH|].
  destruct (room dev <? downloaded + len chunk); [done|].
  specialize (IH (downloaded + len chunk) (f +:+ chunk)).
  destruct (receive percent 0 dev broken rest _ _) as [[evs f'] e].
  simpl in *. exact IH.
Qed.





End DownloadProperties.



(** C7, as the code has it.  When the response carries a client or server
    error status (400 to 599), the download ends with the failed outcome
    straight after the starting status, and the destination file is what it
    was: it has not been opened or written. *)
Theorem error_status_fails (percent : Z -> Z -> Z) (download_path : path)
    (r : response) (dev : device) (file : option string) :
  error_status (status_code r) ->
  run percent download_path (Reply r) dev file
  = ([status_signal (Text "Starting download...");
      status_signal (ErrorText (HTTPError (status_code r)));
      completed_signal false (inr (HTTPError (status_code r)))],
     file).
Proof.
  intros [Hlo Hhi]. unfold run, raise_for_status.
  apply Z.leb_le in Hlo. apply Z.ltb_lt in Hhi. by rewrite Hlo, Hhi.
Qed.

Lemma error_status_fails_witness :
  error_status 404
  /\ run Float.percent ["update.zip"; "tmp"]
       (Reply {| status_code := 404; content_length := Some "9";
                 chunks := ["Not found"]; broken := None |})
       {| open_error := None; room := 100 |} (Some "old")
     = ([status_signal (Text "Starting download...");
         status_signal (ErrorText (HTTPError 404));
         completed_signal false (inr (HTTPError 404))],
        Some "old").
Proof.
  assert (error_status 404) as H by (unfold error_status; lia).
  split; [exact H|].
  exact (error_status_fails Float.percent ["update.zip"; "tmp"]
           {| status_code := 404; content_length := Some "9";
              chunks := ["Not found"]; broken := None |}
           {| open_error := None; room := 100 |} (Some "old") H).
Defined.

(** C7 as stated fails: 300 is not a success status, yet the download of a
    response with that status opens the file, writes the body and
    completes. *)
Lemma status_300_completes :
  ~ success_status 300
  /\ run Float.percent ["update.zip"; "tmp"]
       (Reply {| status_code := 300; content_length := None;
                 chunks := ["x"]; broken := None |})
       {| open_error := None; room := 100 |} None
     = ([status_signal (Text "Starting download...");
         status_signal (Downloading 1);
         status_signal (Text "Download completed!");
         completed_signal true (inl ["update.zip"; "tmp"])],
        Some "x").
Proof. split; [unfold success_status; lia | reflexivity]. Qed.

(** The float computation is not the exact one, and on a sample of byte
    counts and positive totals it is monotone in the byte count. *)
Example float_percent_rounds : Float.percent 29 100 = 28 /\ exact_percent 29 100 = 29.
Proof. by vm_compute. Qed.

Example float_percent_monotone_sample :
  forallb (fun total_size =>
    forallb (fun d => Float.percent d total_size <=? Float.percent (d + 1) total_size)
      (seqZ 0 400))
    (seqZ 1 100) = true.
Proof. by vm_compute. Qed.

(** ** UpdateController *)

Section ControllerProperties.
Variable json_loads : string -> option json.

Lemma not_error_status r : ~ error_status (status_code r) -> raise_for_status r = inr tt.
Proof.
  unfold error_status, raise_for_status. intros H.
  destruct (400 <=? status_code r) eqn:E1; [|done].
  destruct (status_code r <? 600) eqn:E2; [|done].
  apply Z.leb_le in E1. apply Z.ltb_lt in E2. lia.
Qed.

(** C4, as the code has it.  When the manifest arrives with a status that is
    not an error and decodes to an object that lacks [version] or lacks
    [download_url] (its notes being empty or a text), the check reports no
    error: the missing field is read as [None], the comparison is made, and
    the check ends with an update available or not as
    [is_newer_version] decides on the version read and the current version;
    the download url read is retained. *)
Theorem check_missing_fields (network : value -> reply) (w : app)
    (url current_version : value) (r : response) (members : gmap string value) :
  config w !! "update_url" = Some url ->
  config w !! "current_version" = Some current_version ->
  network url = Reply r -> broken r = None ->
  ~ error_status (status_code r) ->
  json_loads (String.concat EmptyString (chunks r)) = Some (JObject members) ->
  members !! "version" = None \/ members !! "download_url" = None ->
  showable (get members "notes" (PStr EmptyString)) ->
  let latest_version := get members "version" PNone in
  let newer := is_newer_version latest_version current_version in
  let w' := (check_for_updates json_loads network w).1 in
  (check_for_updates json_loads network w).2 = inr tt
  /\ dialogs (ui w') = dialogs (ui w)
  /\ update_available w' = newer
  /\ download_btn_enabled (ui w') = newer
  /\ status_label (ui w')
     = (if newer then UpdateAvailable latest_version
        else LatestVersion current_version)
  /\ update_url w' = Some (get members "download_url" PNone)
  /\ (members !! "version" = None -> newer = ne PNone current_version).
Proof.
  intros Hurl Hcur Hnet Hbody Hstatus Hjson _ Hnotes. cbv zeta.
  assert (members !! "version" = None ->
          is_newer_version (get members "version" PNone) current_version
          = ne PNone current_version) as Hnone.
  { intros Hv. unfold get. by rewrite Hv. }
  unfold check_for_updates, check_body, bind, catch, attempt, lift, modify,
    getitem, fetch, response_json, json_get.
  cbn [config set_status with_ui set_update_url set_update_notes].
  rewrite Hurl, Hnet, Hbody, (not_error_status _ Hstatus), Hjson, Hcur.
  destruct (is_newer_version (get members "version" PNone) current_version).
  - destruct Hnotes as [Hfalse|[text Htext]].
    + rewrite Hfalse. by repeat split.
    + rewrite Htext. destruct (truthy (PStr text)); by repeat split.
  - by repeat split.
Qed.

(** C10.  When no update is available, or when the url retained from the
    last check is [None] or empty, [download_update] returns at once and the
    window is exactly as it was: no worker is started and nothing is shown
    or changed. *)
Theorem download_update_noop (w : app) :
  update_available w = false
  \/ (exists url, update_url w = Some url /\ truthy url = false) ->
  download_update w = (w, inr tt).
Proof.
  unfold download_update, bind, gets, attempt, ret.
  intros [Hno|(url & Hurl & Hfalse)].
  - by rewrite Hno.
  - destruct (update_available w); [|done]. simpl. by rewrite Hurl, Hfalse.
Qed.

(** [update_url] has been assigned whenever an update is available, so
    [download_update] does not raise. *)
Lemma check_for_updates_assigns_url (network : value -> reply) (w : app) :
  (update_available w = true -> is_Some (update_url w)) ->
  let w' := (check_for_updates json_loads network w).1 in
  update_available w' = true -> is_Some (update_url w').
Proof.
  intros Hinv.
  unfold check_for_updates, check_body, bind, catch, attempt, lift, modify,
    getitem, fetch, response_json, json_get, as_text, raise_for_status, ret.
  cbn [config set_status with_ui set_update_url set_update_notes].
  repeat (case_match; simplify_eq; cbn; eauto).
Qed.

Lemma download_update_returns (w : app) :
  (update_available w = true -> is_Some (update_url w)) ->
  (download_update w).2 = inr tt.
Proof.
  intros Hinv. unfold download_update, bind, gets, attempt, ret, modify.
  destruct (update_available w); [|done].
  destruct (Hinv eq_refl) as [url Hurl]. cbn. rewrite Hurl.
  by destruct (truthy url).
Qed.

End ControllerProperties.

(** C4 as stated fails: a manifest without [version] is reported as an
    update ("Update available: vNone") with the download button enabled, and
    a manifest without [download_url] is compared as usual; neither check
    shows an error. *)
Lemma manifest_without_fields_accepted :
  let w := init ["tmp"] default_config in
  let answer := Reply {| status_code := 200; content_length := None;
                         chunks := ["manifest"]; broken := None |} in
  let no_version : gmap string value := {["download_url" := PStr "https://x/pkg.zip"]} in
  let no_url : gmap string value := {["version" := PStr "1.0.0"]} in
  let w1 := (check_for_updates (fun _ => Some (JObject no_version))
               (fun _ => answer) w).1 in
  let w2 := (check_for_updates (fun _ => Some (JObject no_url))
               (fun _ => answer) w).1 in
  no_version !! "version" = None /\ no_url !! "download_url" = None
  /\ dialogs (ui w1) = [] /\ update_available w1 = true
  /\ status_label (ui w1) = UpdateAvailable PNone
  /\ download_btn_enabled (ui w1) = true
  /\ dialogs (ui w2) = [] /\ update_available w2 = false
  /\ status_label (ui w2) = LatestVersion (PStr "1.0.0").
Proof. by vm_compute. Qed.

(** The scenarios of the specification: a newer version with notes, and
    the same version, after which a download request does nothing. *)
Example check_finds_update :
  let members : gmap string value :=
    <["version" := PStr "2.0.0"]> (<["download_url" := PStr "https://x/pkg.zip"]>
    {["notes" := PStr "fixes"]}) in
  let w' := (check_for_updates (fun _ => Some (JObject members))
               (fun _ => Reply {| status_code := 200; content_length := None;
                                  chunks := ["manifest"]; broken := None |})
               (init ["tmp"] default_config)).1 in
  update_available w' = true
  /\ update_url w' = Some (PStr "https://x/pkg.zip")
  /\ status_label (ui w') = UpdateAvailable (PStr "2.0.0")
  /\ notes_content (ui w') = "fixes" /\ notes_frame_visible (ui w') = true
  /\ download_thread (download_update w').1 = Some (PStr "https://x/pkg.zip", ["update.zip"; "tmp"]).
Proof. by vm_compute. Qed.

Example check_up_to_date :
  let members : gmap string value :=
    <["version" := PStr "1.0.0"]> {["download_url" := PStr "https://x/pkg.zip"]} in
  let w' := (check_for_updates (fun _ => Some (JObject members))
               (fun _ => Reply {| status_code := 200; content_length := None;
                                  chunks := ["manifest"]; broken := None |})
               (init ["tmp"] default_config)).1 in
  update_available w' = false
  /\ status_label (ui w') = LatestVersion (PStr "1.0.0")
  /\ download_update w' = (w', inr tt).
Proof. by vm_compute. Qed.

Example check_times_out :
  let w' := (check_for_updates (fun _ => None)
               (fun _ => NoReply (RequestException "timed out"))
               (init ["tmp"] default_config)).1 in
  status_label (ui w') = Text "Error checking for updates"
  /\ dialogs (ui w')
     = [warning "Update Check Failed" (ErrorText (RequestException "timed out"))]
  /\ update_available w' = false /\ download_thread w' = None.
Proof. by vm_compute. Qed.

Lemma check_missing_fields_witness :
  let w := init ["tmp"] default_config in
  let r := {| status_code := 200; content_length := None;
              chunks := ["manifest"]; broken := None |} in
  let members : gmap string value := {["version" := PStr "2.0.0"]} in
  let w' := (check_for_updates (fun _ => Some (JObject members))
               (fun _ => Reply r) w).1 in
  members !! "download_url" = None
  /\ dialogs (ui w') = dialogs (ui w)
  /\ update_available w' = true
  /\ update_url w' = Some PNone.
Proof.
  intros w r members w'.
  assert (members !! "download_url" = None) as Hmiss by reflexivity.
  split; [exact Hmiss|].
  destruct (check_missing_fields (fun _ => Some (JObject members))
              (fun _ => Reply r) w
              (PStr "https://yourusername.github.io/app-updates/latest.json")
              (PStr "1.0.0") r members)
    as (_ & Hd & Ha & _ & _ & Hu & _);
    [reflexivity | reflexivity | reflexivity | reflexivity
    | unfold error_status; simpl; lia | reflexivity | by right
    | left; reflexivity |].
  split; [exact Hd|]. split; [exact Ha | exact Hu].
Defined.

Lemma download_update_noop_witness :
  let w := init ["tmp"] default_config in
  let members : gmap string value := {["version" := PStr "2.0.0"]} in
  let w' := (check_for_updates (fun _ => Some (JObject members))
               (fun _ => Reply {| status_code := 200; content_length := None;
                                  chunks := ["manifest"]; broken := None |}) w).1 in
  update_available w' = true /\ update_url w' = Some PNone
  /\ download_update w' = (w', inr tt)
  /\ download_update w = (w, inr tt).
Proof.
  intros w members w'.
  split; [reflexivity|]. split; [reflexivity|]. split.
  - apply (download_update_noop w'). right. exists PNone. by split.
  - apply (download_update_noop w). by left.
Defined.

(** ** Installer *)

Section InstallProperties.
Variable json_loads : string -> option json.
Variable fold : string -> string.
Variable denied : path -> bool.

(** C3.  When the extraction of the archive fails, the install reports the
    failure ("Installation failed!" and a critical dialog with the error)
    and the merge is not reached: the disk that holds the installation, the
    configuration file and the configuration are what they were. *)
Theorem extraction_failure_aborts (app_dir : path) (refused : option exn)
    (e : exn) (s : world) :
  let s' := (install_update json_loads fold denied app_dir (ExtractFailed e)
               refused s).1 in
  live s' = live s
  /\ config_file s' = config_file s
  /\ config (win s') = config (win s)
  /\ status_label (ui (win s')) = Text "Installation failed!"
  /\ status_icon (ui (win s')) = Some error
  /\ dialogs (ui (win s'))
     = dialogs (ui (win s)) ++ [critical "Installation Failed" (ErrorText e)].
Proof. by repeat split. Qed.



End InstallProperties.


(** The whole pipeline on a package without [version.json]: the check finds
    version 2.0.0, the worker downloads the archive, its events reach the
    slots in order, and the install leaves [current_version] at 1.0.0. *)
Example pipeline_without_descriptor :
  let members : gmap string value :=
    <["version" := PStr "2.0.0"]> {["download_url" := PStr "https://x/pkg.zip"]} in
  let manifest := Reply {| status_code := 200; content_length := None;
                           chunks := ["manifest"]; broken := None |} in
  let package := Reply {| status_code := 200; content_length := Some "8";
                          chunks := ["PK"; "archive"]; broken := None |} in
  let w1 := (check_for_updates (fun _ => Some (JObject members))
               (fun _ => manifest) (init ["tmp"] default_config)).1 in
  let w2 := (download_update w1).1 in
  let '(evs, file) := run Float.percent (download_path w2) package
                        {| open_error := None; room := 1000 |} None in
  let s := {| win := w2;
              live := <[["app"] := Dir]> (<[["app.py"; "app"] := File "old"]> ∅);
              config_file := Some default_config |} in
  let s' := (deliver_all (fun _ => None) (fun name => name) (fun _ => false)
               ["app"] (Extracted (NDir [("app.py", NFile "new")])) None evs s).1 in
  file = Some "PKarchive"
  /\ percentages evs = [25; 112]
  /\ progress_bar_value (ui (win s')) = 25
  /\ live s' !! ["app.py"; "app"] = Some (File "new")
  /\ status_label (ui (win s')) = Text "Update installed successfully!"
  /\ persisted_version s' = Some (PStr "1.0.0")
  /\ progress_bar_visible (ui (win s')) = false
  /\ check_btn_enabled (ui (win s')) = true.
Proof. by vm_compute. Qed.

(** * Further properties of the code *)

(** ** [is_newer_version] as an order *)


Lemma eq_symmetric (v w : value) : Py.eq v w = Py.eq w v.
Proof.
  destruct v as [|a|a|a], w as [|b|b|b]; simpl; try done.
  - by destruct a, b.
  - apply Z.eqb_sym.
  - apply String.eqb_sym.
Qed.

Lemma tuple_gt_irreflexive v : tuple_gt v v = false.
Proof. induction v as [|x v IH]; simpl; [done|]. by rewrite Z.eqb_refl. Qed.

Lemma tuple_gt_asymmetric v w : tuple_gt v w = true -> tuple_gt w v = false.
Proof.
  revert w. induction v as [|x v IH]; intros [|y w]; simpl; try done.
  rewrite (Z.eqb_sym y x). destruct (Z.eqb_spec x y) as [->|Hne]; [apply IH|].
  intros H%Z.ltb_lt. apply Z.ltb_ge. lia.
Qed.

Lemma tuple_gt_transitive u v w :
  tuple_gt u v = true -> tuple_gt v w = true -> tuple_gt u w = true.
Proof.
  revert v w. induction u as [|x u IH]; intros [|y v] [|z w]; simpl; try done.
  destruct (Z.eqb_spec x y) as [->|Hxy].
  - destruct (Z.eqb_spec y z) as [->|Hyz]; [apply IH | done].
  - intros Hgt%Z.ltb_lt. destruct (Z.eqb_spec y z) as [->|Hyz].
    + intros _. destruct (Z.eqb_spec x z); [lia|]. by apply Z.ltb_lt.
    + intros Hgt'%Z.ltb_lt. destruct (Z.eqb_spec x z); [lia|]. apply Z.ltb_lt. lia.
Qed.

Lemma tuple_gt_neither v w :
  tuple_gt v w = false /\ tuple_gt w v = false <-> v = w.
Proof.
  split; [|intros ->; by rewrite tuple_gt_irreflexive].
  revert w. induction v as [|x v IH]; intros [|y w]; simpl; try done;
    try (intros [? ?]; done).
  rewrite (Z.eqb_sym y x). destruct (Z.eqb_spec x y) as [->|Hne].
  - intros H. by rewrite (IH w H).
  - intros [H1%Z.ltb_ge H2%Z.ltb_ge]. lia.
Qed.


(** X2.  On versions that parse, [is_newer_version] is the strict total
    order of their tuples: it is asymmetric and transitive, and neither of
    two versions is newer than the other exactly when their tuples are
    equal. *)
Theorem is_newer_strict_order (a b c : value) (ta tb tc : list Z) :
  version_tuple a = Some ta -> version_tuple b = Some tb ->
  version_tuple c = Some tc ->
  (is_newer_version a b = true -> is_newer_version b a = false)
  /\ (is_newer_version a b = true -> is_newer_version b c = true ->
      is_newer_version a c = true)
  /\ (is_newer_version a b = false /\ is_newer_version b a = false <-> ta = tb).
Proof.
  intros Ha Hb Hc. unfold is_newer_version. rewrite Ha, Hb, Hc.
  split; [apply tuple_gt_asymmetric|]. split; [apply tuple_gt_transitive|].
  apply tuple_gt_neither.
Qed.

Lemma is_newer_strict_order_witness :
  (is_newer_version (PStr "2.0") (PStr "1.9.9") = true ->
   is_newer_version (PStr "1.9.9") (PStr "2.0") = false)
  /\ (is_newer_version (PStr "2.0") (PStr "1.9.9") = true ->
      is_newer_version (PStr "1.9.9") (PStr "1.09") = true ->
      is_newer_version (PStr "2.0") (PStr "1.09") = true)
  /\ (is_newer_version (PStr "2.0") (PStr "1.9.9") = false
      /\ is_newer_version (PStr "1.9.9") (PStr "2.0") = false
      <-> [2; 0] = [1; 9; 9]).
Proof.
  exact (is_newer_strict_order (PStr "2.0") (PStr "1.9.9") (PStr "1.09")
           [2; 0] [1; 9; 9] [1; 9] eq_refl eq_refl eq_refl).
Defined.

(** X3.  When one of the two versions does not parse, the answer does not
    depend on the order of the arguments: two such versions that differ are
    each reported newer than the other. *)
Theorem is_newer_fallback_symmetric (a b : value) :
  version_tuple a = None \/ version_tuple b = None ->
  is_newer_version a b = is_newer_version b a
  /\ is_newer_version a b = ne a b.
Proof.
  intros H. unfold is_newer_version, ne. rewrite (eq_symmetric b a).
  destruct H as [H|H]; rewrite H; clear H; destruct (version_tuple _); split; reflexivity.
Qed.

Lemma is_newer_fallback_symmetric_witness :
  is_newer_version (PStr "1.0-rc1") (PStr "1.0") = is_newer_version (PStr "1.0") (PStr "1.0-rc1")
  /\ is_newer_version (PStr "1.0-rc1") (PStr "1.0") = ne (PStr "1.0-rc1") (PStr "1.0").
Proof.
  apply (is_newer_fallback_symmetric (PStr "1.0-rc1") (PStr "1.0")).
  left. reflexivity.
Defined.

(** ** What the merge writes *)

Lemma same_kind_refl d : same_kind d d.
Proof. intros p. destruct (stat p d) as [[data|]|]; eauto. Qed.

Lemma same_kind_trans d1 d2 d3 : same_kind d1 d2 -> same_kind d2 d3 -> same_kind d1 d3.
Proof.
  intros H1 H2 p. specialize (H1 p). specialize (H2 p).
  destruct (stat p d1) as [[data|]|]; [|by rewrite H1 in H2|done].
  destruct H1 as [data' H1]. by rewrite H1 in H2.
Qed.

Lemma same_kind_keeps d d' p : same_kind d d' -> is_Some (stat p d) -> is_Some (stat p d').
Proof.
  intros H [x Hx]. specialize (H p). rewrite Hx in H.
  destruct x; [destruct H as [? ->]|rewrite H]; eauto.
Qed.

Lemma stat_insert_ne (p q : path) (x : entry) (d : disk) : p <> q -> stat q (<[p := x]> d) = stat q d.
Proof. intros Hne. destruct q; [done|]. simpl. by apply lookup_insert_ne. Qed.

Lemma stat_insert_eq (p : path) (x : entry) (d : disk) : p <> [] -> stat p (<[p := x]> d) = Some x.
Proof. intros Hne. destruct p; [done|]. simpl. apply lookup_insert_eq. Qed.

Lemma same_kind_insert (p : path) (x : entry) (d : disk) :
  stat p d = None \/ (exists data data', stat p d = Some (File data) /\ x = File data') ->
  same_kind d (<[p := x]> d).
Proof.
  intros Hp q. destruct (decide (p = q)) as [<-|Hne].
  - assert (p <> []) as Hnil.
    { intros ->. destruct Hp as [Hp|(? & ? & Hp & _)]; discriminate Hp. }
    rewrite (stat_insert_eq _ _ _ Hnil).
    destruct Hp as [->|(data & data' & -> & ->)]; eauto.
  - rewrite (stat_insert_ne _ _ _ _ Hne). destruct (stat q d) as [[data|]|]; eauto.
Qed.

Lemma changes_within_refl P d : changes_within P d d.
Proof. split; [done | apply same_kind_refl]. Qed.

Lemma changes_within_trans P d1 d2 d3 :
  changes_within P d1 d2 -> changes_within P d2 d3 -> changes_within P d1 d3.
Proof.
  intros [F1 K1] [F2 K2]. split; [|by eapply same_kind_trans].
  intros p Hp. by rewrite (F2 p Hp), (F1 p Hp).
Qed.

Lemma changes_within_weaken (P Q : path -> Prop) d d' :
  (forall p, P p -> Q p) -> changes_within P d d' -> changes_within Q d d'.
Proof. intros HPQ [F K]. split; [|done]. intros p Hp. apply F. eauto. Qed.

Lemma changes_within_insert (p : path) (x : entry) (d : disk) :
  stat p d = None \/ (exists data data', stat p d = Some (File data) /\ x = File data') ->
  changes_within (fun q => p = q) d (<[p := x]> d).
Proof.
  intros Hp. split; [|by apply same_kind_insert].
  intros q Hq. by apply lookup_insert_ne.
Qed.

Section MergeFootprint.
Variable fold : string -> string.
Variable denied : path -> bool.

Lemma mkdir_result p d :
  (mkdir denied p d).1 = d
  \/ (stat p d = None /\ mkdir denied p d = (<[p := Dir]> d, inr tt)).
Proof.
  unfold mkdir. destruct (stat p d); [by left|].
  destruct (stat (tail p) d) as [[]|]; try by left.
  destruct (denied p); [by left | by right].
Qed.

Lemma write_file_result p data d :
  (exists e, write_file denied p data d = (d, inl e))
  \/ (stat p d <> Some Dir
      /\ write_file denied p data d = (<[p := File data]> d, inr tt)).
Proof.
  unfold write_file.
  destruct (stat p d) as [[x|]|] eqn:Ep;
    destruct (stat (tail p) d) as [[]|]; eauto;
    destruct (denied p); eauto.
Qed.

Lemma mkdir_changes p d : changes_within (fun q => p = q) d (mkdir denied p d).1.
Proof.
  destruct (mkdir_result p d) as [->|[Hnone ->]]; [apply changes_within_refl|].
  apply changes_within_insert. by left.
Qed.

Lemma write_file_changes p data d :
  changes_within (fun q => p = q) d (write_file denied p data d).1.
Proof.
  destruct (write_file_result p data d) as [[e ->]|[Hp ->]];
    [apply changes_within_refl|].
  apply changes_within_insert.
  destruct (stat p d) as [[x|]|]; [right; eauto | done | by left].
Qed.

Lemma copy2_changes data item dst d :
  changes_within (fun p => dst `suffix_of` p) d (copy2 fold denied data item dst d).1.
Proof.
  unfold copy2.
  destruct (stat dst d) as [[]|];
    (eapply changes_within_weaken; [|apply write_file_changes]);
    intros p <-; try done.
  unfold join. apply suffix_cons_r. done.
Qed.

Lemma ensure_dir_changes name dst_dir d :
  is_Some (stat dst_dir d) ->
  exists d1 r,
    (present <- exists_ (join fold dst_dir name) ;;
     if present then ret tt else makedirs denied (join fold dst_dir name)) d
    = (d1, r)
    /\ changes_within (fun q => join fold dst_dir name = q) d d1
    /\ (r = inr tt -> is_Some (stat (join fold dst_dir name) d1)).
Proof.
  intros Hdst. unfold bind, exists_. case_bool_decide as Hex.
  - exists d, (inr tt). split; [done|]. split; [apply changes_within_refl | done].
  - unfold join. rewrite (makedirs_below _ _ _ _ Hdst).
    destruct (mkdir denied (fold name :: dst_dir) d) as [d1 r] eqn:E.
    exists d1, r. split; [done|]. split.
    + pose proof (mkdir_changes (fold name :: dst_dir) d) as G. by rewrite E in G.
    + intros ->. by apply (mkdir_creates _ _ _ _ E).
Qed.

#[local] Arguments copy_with_overwrite : simpl never.
#[local] Arguments makedirs : simpl never.
#[local] Arguments join : simpl never.

Lemma touched_cons_head item child rest dst p :
  is_self item = false -> join fold dst item `suffix_of` p ->
  touched fold (NDir ((item, child) :: rest)) dst p.
Proof. intros Hitem Hp. exists (item, child). split; [left | done]. Qed.

Lemma touched_cons_tail e rest dst p :
  touched fold (NDir rest) dst p -> touched fold (NDir (e :: rest)) dst p.
Proof. intros (e' & Hin & H). exists e'. split; [by right | done]. Qed.

Lemma touched_below n dst p : touched fold n dst p -> below dst p.
Proof.
  destruct n as [|entries]; [done|]. intros (e & _ & _ & k & ->).
  exists (k ++ [fold e.1]). split; [by destruct k|]. by rewrite <- app_assoc.
Qed.

Lemma copy_with_overwrite_changes src_dir :
  forall dst_dir d,
    is_Some (stat dst_dir d) ->
    changes_within (touched fold src_dir dst_dir) d
      (copy_with_overwrite fold denied src_dir dst_dir d).1.
Proof.
  induction src_dir as [data|entries IH] using node_induction;
    intros dst_dir d Hdst; [apply changes_within_refl|].
  revert d Hdst.
  induction IH as [|[item child] rest Hchild _ IHrest]; intros d Hdst;
    [apply changes_within_refl|].
  simpl in Hchild. rewrite copy_cons. cbv zeta.
  assert (forall d1, is_Some (stat dst_dir d1) ->
            changes_within (touched fold (NDir ((item, child) :: rest)) dst_dir) d1
              (copy_with_overwrite fold denied (NDir rest) dst_dir d1).1) as Hrest.
  { intros d1 H1. eapply changes_within_weaken; [|by apply IHrest].
    intros p. apply touched_cons_tail. }
  destruct (is_self item) eqn:Hitem; [by apply Hrest|].
  destruct child as [data|sub].
  - unfold bind.
    pose proof (copy2_changes data item (join fold dst_dir item) d) as G.
    apply (changes_within_weaken _
             (touched fold (NDir ((item, NFile data) :: rest)) dst_dir)) in G;
      [|intros p; by apply touched_cons_head].
    destruct (copy2 fold denied data item (join fold dst_dir item) d)
      as [d1 [e|[]]]; [exact G|].
    eapply changes_within_trans; [exact G|]. apply Hrest.
    eapply same_kind_keeps; [apply G | done].
  - destruct (ensure_dir_changes item dst_dir d Hdst)
      as (d1 & r & E & G1 & Hmade).
    apply (changes_within_weaken _
             (touched fold (NDir ((item, NDir sub) :: rest)) dst_dir)) in G1;
      [|intros p <-; by apply touched_cons_head].
    unfold bind in E |- *. unfold exists_ in E |- *. rewrite E.
    destruct r as [e|[]]; [exact G1|].
    pose proof (Hchild (join fold dst_dir item) d1 (Hmade eq_refl)) as G2.
    apply (changes_within_weaken _
             (touched fold (NDir ((item, NDir sub) :: rest)) dst_dir)) in G2.
    2:{ intros p (e & _ & _ & Hp). apply touched_cons_head; [done|].
        etrans; [|exact Hp]. apply suffix_cons_r. done. }
    destruct (copy_with_overwrite fold denied (NDir sub) (join fold dst_dir item) d1)
      as [d2 [e|[]]]; simpl in G2.
    + by eapply changes_within_trans.
    + eapply changes_within_trans; [exact G1|].
      eapply changes_within_trans; [exact G2|]. apply Hrest.
      eapply same_kind_keeps; [apply G2|].
      eapply same_kind_keeps; [apply G1 | done].
Qed.

(** X4.  Merging into an existing directory writes only strictly below that
    directory, whether it completes or raises; and it never removes a path,
    never turns a directory into a file and never turns a file into a
    directory. *)
Theorem merge_stays_below (src_dir : node) (dst_dir : path) (d : disk) :
  is_Some (stat dst_dir d) ->
  let d' := (copy_with_overwrite fold denied src_dir dst_dir d).1 in
  (forall p, ~ below dst_dir p -> d' !! p = d !! p)
  /\ same_kind d d'.
Proof.
  intros Hdst.
  destruct (copy_with_overwrite_changes src_dir dst_dir d Hdst) as [F K].
  split; [|exact K]. intros p Hp. apply F. intros H. apply Hp. by eapply touched_below.
Qed.

Lemma files_of_cons item child rest dst :
  files_of fold (NDir ((item, child) :: rest)) dst
  = (if is_self item then []
     else match child with
          | NFile data => [(join fold dst item, data)]
          | NDir _ => files_of fold child (join fold dst item)
          end) ++ files_of fold (NDir rest) dst.
Proof. reflexivity. Qed.

Lemma listed_cons item child rest :
  listed fold (NDir ((item, child) :: rest)) ->
  (fold item ∉ ((fun e => fold e.1) <$> rest))
  /\ listed fold child /\ listed fold (NDir rest).
Proof.
  simpl. intros [Hnodup [Hchild Hrest]]. apply NoDup_cons in Hnodup as [Hnotin Hnodup].
  by repeat split.
Qed.

Lemma suffix_siblings (a b : string) (l p : path) :
  a :: l `suffix_of` p -> b :: l `suffix_of` p -> a = b.
Proof.
  intros [k1 ->] [k2 H]. apply app_inj_2 in H as [_ H]; [congruence | done].
Qed.

Lemma suffix_nonempty (a : string) (l p : path) : a :: l `suffix_of` p -> p <> [].
Proof. intros [k ->]. by destruct k. Qed.

Lemma suffix_longer (a : string) (l p : path) : a :: l `suffix_of` p -> p <> l.
Proof.
  intros [k ->] H. apply (f_equal length) in H. rewrite length_app in H.
  simpl in H. lia.
Qed.

Lemma stat_lookup (p : path) (d : disk) : p <> [] -> stat p d = d !! p.
Proof. by destruct p. Qed.

Lemma files_of_touched n :
  forall dst p data, (p, data) ∈ files_of fold n dst -> touched fold n dst p.
Proof.
  induction n as [data|entries IH] using node_induction; intros dst p data0;
    [by intros ?%elem_of_nil|].
  induction IH as [|[item child] rest Hchild _ IHrest]; [by intros ?%elem_of_nil|].
  rewrite files_of_cons. intros [Hin|Hin]%elem_of_app;
    [|by apply touched_cons_tail, IHrest].
  destruct (is_self item) eqn:Hitem; [by apply elem_of_nil in Hin|].
  apply touched_cons_head; [done|]. destruct child as [data|sub].
  - apply list_elem_of_singleton in Hin. by injection Hin as -> _.
  - apply Hchild in Hin as (e & _ & _ & Hp).
    etrans; [|exact Hp]. apply suffix_cons_r. done.
Qed.

Lemma not_touched_sibling item rest dst p :
  fold item ∉ ((fun e => fold e.1) <$> rest) ->
  join fold dst item `suffix_of` p -> ~ touched fold (NDir rest) dst p.
Proof.
  intros Hnotin Hp (e & Hin & _ & Hp'). apply Hnotin.
  rewrite (suffix_siblings _ _ _ _ Hp Hp').
  by apply (list_elem_of_fmap_2 (fun e => fold e.1)).
Qed.

Lemma copy_with_overwrite_installs src_dir :
  forall dst_dir d d',
    is_Some (stat dst_dir d) ->
    listed fold src_dir ->
    (forall p data, (p, data) ∈ files_of fold src_dir dst_dir -> stat p d <> Some Dir) ->
    copy_with_overwrite fold denied src_dir dst_dir d = (d', inr tt) ->
    forall p data,
      (p, data) ∈ files_of fold src_dir dst_dir -> d' !! p = Some (File data).
Proof.
  induction src_dir as [data|entries IH] using node_induction;
    intros dst_dir d d' Hdst Hlisted Hfree Hrun p data0;
    [by intros ?%elem_of_nil|].
  revert d d' Hdst Hlisted Hfree Hrun p data0.
  induction IH as [|[item child] rest Hchild _ IHrest];
    intros d d' Hdst Hlisted Hfree Hrun p data0; [by intros ?%elem_of_nil|].
  simpl in Hchild. apply listed_cons in Hlisted as (Hnotin & Hlchild & Hlrest).
  rewrite copy_cons in Hrun. cbv zeta in Hrun.
  rewrite files_of_cons. rewrite files_of_cons in Hfree.
  destruct (is_self item) eqn:Hitem.
  { simpl. simpl in Hfree. by apply IHrest with d. }
  destruct child as [data|sub].
  - (* a file *)
    unfold bind in Hrun.
    assert (stat (join fold dst_dir item) d <> Some Dir) as Hnodir.
    { apply (Hfree _ data). apply elem_of_app. left. by apply list_elem_of_singleton. }
    assert (copy2 fold denied data item (join fold dst_dir item) d
            = write_file denied (join fold dst_dir item) data d) as Hcopy2.
    { unfold copy2. by destruct (stat (join fold dst_dir item) d) as [[]|]. }
    rewrite Hcopy2 in Hrun.
    destruct (write_file_result (join fold dst_dir item) data d)
      as [[e Hw]|[_ Hw]]; rewrite Hw in Hrun; [discriminate Hrun|].
    set (d1 := <[join fold dst_dir item := File data]> d) in *.
    assert (is_Some (stat dst_dir d1)) as Hdst1.
    { eapply same_kind_keeps; [|exact Hdst].
      pose proof (write_file_changes (join fold dst_dir item) data d) as G.
      rewrite Hw in G. apply G. }
    intros [Hin|Hin]%elem_of_app.
    + apply list_elem_of_singleton in Hin. injection Hin as -> ->.
      destruct (copy_with_overwrite_changes (NDir rest) dst_dir d1 Hdst1) as [F _].
      rewrite Hrun in F. simpl in F. rewrite F; [apply lookup_insert_eq|].
      by apply (not_touched_sibling item).
    + apply IHrest with d1; try done.
      intros p' data' Hin'. destruct (decide (join fold dst_dir item = p')) as [<-|Hne].
      * unfold d1. rewrite stat_insert_eq; done.
      * unfold d1. rewrite stat_insert_ne by done.
        apply (Hfree _ data'). apply elem_of_app. by right.
  - (* a directory *)
    destruct (ensure_dir_changes item dst_dir d Hdst) as (d1 & r & E & G1 & Hmade).
    unfold bind in E, Hrun. unfold exists_ in E, Hrun. rewrite E in Hrun.
    destruct r as [e|[]]; [discriminate Hrun|].
    specialize (Hmade eq_refl).
    pose proof (copy_with_overwrite_changes (NDir sub) (join fold dst_dir item) d1 Hmade)
      as G2.
    destruct (copy_with_overwrite fold denied (NDir sub) (join fold dst_dir item) d1)
      as [d2 [e|[]]] eqn:Esub; [discriminate Hrun|]. simpl in G2.
    assert (changes_within (fun q => join fold dst_dir item `suffix_of` q) d d2) as G.
    { eapply changes_within_trans.
      - eapply changes_within_weaken; [|exact G1]. by intros q <-.
      - eapply changes_within_weaken; [|exact G2].
        intros q (e & _ & _ & Hq). etrans; [|exact Hq]. apply suffix_cons_r. done. }
    assert (is_Some (stat dst_dir d2)) as Hdst2.
    { eapply same_kind_keeps; [apply G | exact Hdst]. }
    intros [Hin|Hin]%elem_of_app.
    + assert (join fold dst_dir item `suffix_of` p) as Hp.
      { apply files_of_touched in Hin as (e & _ & _ & Hq).
        etrans; [|exact Hq]. apply suffix_cons_r. done. }
      destruct (copy_with_overwrite_changes (NDir rest) dst_dir d2 Hdst2) as [F _].
      rewrite Hrun in F. simpl in F. rewrite F; [|by apply (not_touched_sibling item)].
      apply (Hchild (join fold dst_dir item) d1 d2 Hmade Hlchild); [|done|done].
      intros p' data' Hin'.
      assert (join fold dst_dir item <> p') as Hne.
      { apply files_of_touched in Hin' as (e & _ & _ & Hq).
        intros <-. by apply suffix_longer in Hq. }
      assert (p' <> []) as Hnil.
      { apply files_of_touched in Hin' as (e & _ & _ & Hq).
        by apply suffix_nonempty in Hq. }
      rewrite (stat_lookup _ _ Hnil). destruct G1 as [F1 _].
      rewrite (F1 p' Hne), <- (stat_lookup _ _ Hnil).
      apply (Hfree _ data'). apply elem_of_app. by left.
    + apply IHrest with d2; try done.
      intros p' data' Hin'.
      pose proof (files_of_touched _ _ _ _ Hin') as Htouched.
      assert (p' <> []) as Hnil.
      { destruct Htouched as (e & _ & _ & Hq). by apply suffix_nonempty in Hq. }
      rewrite (stat_lookup _ _ Hnil). destruct G as [F _]. rewrite F.
      * rewrite <- (stat_lookup _ _ Hnil).
        apply (Hfree _ data'). apply elem_of_app. by right.
      * intros Hq. by apply (not_touched_sibling item rest dst_dir p').
Qed.

(** X5.  When a merge into an existing directory completes, every file of
    the package that is not skipped is in place with the data of the
    package, provided the package is a listing (names distinct in every
    directory) and none of its files meets a directory of the same path. *)
Theorem merge_installs_files (src_dir : node) (dst_dir : path) (d d' : disk) :
  is_Some (stat dst_dir d) ->
  listed fold src_dir ->
  (forall p data, (p, data) ∈ files_of fold src_dir dst_dir -> stat p d <> Some Dir) ->
  copy_with_overwrite fold denied src_dir dst_dir d = (d', inr tt) ->
  forall p data,
    (p, data) ∈ files_of fold src_dir dst_dir -> d' !! p = Some (File data).
Proof. apply copy_with_overwrite_installs. Qed.

End MergeFootprint.

Lemma merge_stays_below_witness :
  let src_dir := NDir [("app.txt", NFile "new"); ("lib", NDir [("m.py", NFile "new")])] in
  let d : disk :=
    <[["app"] := Dir]> (<[["app.txt"; "app"] := File "old"]>
    (<[["data"] := Dir]> (<[["app.txt"; "data"] := File "kept"]> ∅))) in
  let d' := (copy_with_overwrite (fun name => name) (fun _ => false)
               src_dir ["app"] d).1 in
  is_Some (stat ["app"] d)
  /\ (forall p, ~ below ["app"] p -> d' !! p = d !! p)
  /\ same_kind d d'
  /\ d' !! ["app.txt"; "app"] = Some (File "new")
  /\ d' !! ["app.txt"; "data"] = Some (File "kept").
Proof.
  intros src_dir d d'.
  assert (is_Some (stat ["app"] d)) as Hdst by (vm_compute; eauto).
  split; [exact Hdst|].
  destruct (merge_stays_below (fun name => name) (fun _ => false)
              src_dir ["app"] d Hdst) as [Hframe Hkind].
  split; [exact Hframe|]. split; [exact Hkind|]. by vm_compute.
Defined.

Lemma merge_installs_files_witness :
  let src_dir := NDir [("app.txt", NFile "new"); ("Updater.exe", NFile "other");
                       ("lib", NDir [("m.py", NFile "code")])] in
  let d : disk := <[["app"] := Dir]> (<[["app.txt"; "app"] := File "old"]> ∅) in
  let d' := (copy_with_overwrite (fun name => name) (fun _ => false)
               src_dir ["app"] d).1 in
  files_of (fun name => name) src_dir ["app"]
  = [(["app.txt"; "app"], "new"); (["m.py"; "lib"; "app"], "code")]
  /\ d' !! ["app.txt"; "app"] = Some (File "new")
  /\ d' !! ["m.py"; "lib"; "app"] = Some (File "code").
Proof.
  intros src_dir d d'.
  assert (is_Some (stat ["app"] d)) as Hdst by (vm_compute; eauto).
  assert (listed (fun name => name) src_dir) as Hlisted.
  { simpl. repeat split; apply (bool_decide_unpack _); by vm_compute. }
  assert (forall p data,
            (p, data) ∈ files_of (fun name => name) src_dir ["app"] ->
            stat p d <> Some Dir) as Hfree.
  { intros p data Hin. simpl in Hin.
    apply elem_of_cons in Hin as [[= -> ->]|Hin]; [by vm_compute|].
    apply elem_of_cons in Hin as [[= -> ->]|Hin]; [by vm_compute|].
    by apply elem_of_nil in Hin. }
  assert (copy_with_overwrite (fun name => name) (fun _ => false) src_dir ["app"] d
          = (d', inr tt)) as Hrun.
  { unfold d'.
    destruct (copy_with_overwrite (fun name => name) (fun _ => false) src_dir ["app"] d)
      as [d1 r] eqn:E.
    assert (r = inr tt) as ->; [|done].
    change r with (d1, r).2. rewrite <- E. by vm_compute. }
  split; [reflexivity|].
  split; apply (merge_installs_files (fun name => name) (fun _ => false)
                  src_dir ["app"] d d' Hdst Hlisted Hfree Hrun);
    apply (bool_decide_unpack _); by vm_compute.
Defined.

(** ** What the worker writes and reports *)

Lemma string_app_nil_r (s : string) : s +:+ EmptyString = s.
Proof.
  induction s as [|c s IH]; [done|].
  change (String c (s +:+ EmptyString) = String c s). by rewrite IH.
Qed.

Lemma string_app_assoc (a b c : string) : (a +:+ b) +:+ c = a +:+ (b +:+ c).
Proof.
  induction a as [|x a IH]; [done|].
  change (String x ((a +:+ b) +:+ c) = String x (a +:+ (b +:+ c))). by rewrite IH.
Qed.

Lemma len_app (a b : string) : len (a +:+ b) = len a + len b.
Proof.
  unfold len. induction a as [|x a IH];
    [change (EmptyString +:+ b) with b; simpl; lia|].
  change (String x a +:+ b) with (String x (a +:+ b)). simpl String.length.
  rewrite !Nat2Z.inj_succ. lia.
Qed.


Lemma concat_chunks_cons (x : string) (xs : list string) :
  String.concat EmptyString (x :: xs) = x +:+ String.concat EmptyString xs.
Proof. destruct xs; [symmetry; apply string_app_nil_r | reflexivity]. Qed.

Section DownloadContent.
Variable percent : Z -> Z -> Z.

Lemma receive_written total_size dev broken chunks :
  forall downloaded f,
    let result := receive percent total_size dev broken chunks downloaded f in
    exists written rest,
      result.1.2 = f +:+ written
      /\ String.concat EmptyString chunks = written +:+ rest
      /\ (result.2 = None -> rest = EmptyString)
      /\ last (downloaded :: byte_counts result.1.1) = Some (downloaded + len written).
Proof.
  induction chunks as [|chunk rest IH]; intros downloaded f; cbv zeta.
  { simpl. exists EmptyString, EmptyString. rewrite string_app_nil_r.
    repeat split; try done. f_equal. unfold len. simpl. lia. }
  rewrite concat_chunks_cons. simpl receive.
  destruct (String.eqb_spec chunk EmptyString) as [->|Hne]; [apply IH|].
  destruct (room dev <? downloaded + len chunk).
  { exists EmptyString, (chunk +:+ String.concat EmptyString rest).
    rewrite string_app_nil_r. repeat split; try done. simpl. f_equal.
    unfold len. simpl. lia. }
  destruct (IH (downloaded + len chunk) (f +:+ chunk))
    as (written & tail & Hf & Hbody & Hdone & Hlast).
  destruct (receive percent total_size dev broken rest _ _) as [[evs f'] e].
  simpl in *. exists (chunk +:+ written), tail.
  split; [by rewrite Hf, string_app_assoc|].
  split; [by rewrite Hbody, string_app_assoc|].
  split; [done|].
  unfold byte_counts in *. rewrite omap_app.
  assert (omap byte_count
            ((if total_size =? 0 then []
              else [progress_signal (percent (downloaded + len chunk) total_size)])
             ++ [status_signal (Downloading (downloaded + len chunk))])
          = [downloaded + len chunk]) as -> by (by destruct (total_size =? 0)).
  simpl in *. rewrite len_app, Z.add_assoc. exact Hlast.
Qed.


Lemma receive_outcome total_size dev broken chunks :
  forall downloaded f,
    downloaded <= room dev ->
    (receive percent total_size dev broken chunks downloaded f).2 = None
    <-> broken = None
        /\ downloaded + len (String.concat EmptyString chunks) <= room dev.
Proof.
  induction chunks as [|chunk rest IH]; intros downloaded f Hroom; simpl receive.
  { simpl. split; [intros ->; split; [done|]|by intros [-> _]].
    unfold len. simpl. lia. }
  rewrite concat_chunks_cons, len_app.
  pose proof (len_nonneg (String.concat EmptyString rest)) as Hrest.
  destruct (String.eqb_spec chunk EmptyString) as [->|Hne].
  { rewrite (IH downloaded f Hroom). unfold len at 2. simpl. by rewrite Z.add_0_l. }
  destruct (Z.ltb_spec (room dev) (downloaded + len chunk)) as [Hfull|Hfits].
  { simpl. split; [done | lia]. }
  specialize (IH (downloaded + len chunk) (f +:+ chunk) Hfits).
  destruct (receive percent total_size dev broken rest _ _) as [[evs f'] e].
  simpl in *. rewrite IH. by rewrite Z.add_assoc.
Qed.

Lemma failed_not_completed evs e :
  Forall (fun e => ~ terminal e) evs ->
  ~ completed (evs ++ [status_signal (ErrorText e); completed_signal false (inr e)]).
Proof.
  intros Hevs [result Hin]. apply elem_of_app in Hin as [Hin|Hin].
  - rewrite Forall_forall in Hevs. by apply (Hevs _ Hin).
  - apply elem_of_cons in Hin as [Hin|Hin]; [discriminate Hin|].
    apply elem_of_cons in Hin as [Hin|Hin]; [discriminate Hin|].
    by apply elem_of_nil in Hin.
Qed.

(** The cases of [run]: it gives up before the file is opened, or the file
    is opened and the loop decides. *)
Lemma run_cases download_path answer dev file :
  (exists e,
     ~ unhindered answer dev
     /\ run percent download_path answer dev file
        = ([status_signal (Text "Starting download...");
            status_signal (ErrorText e); completed_signal false (inr e)], file))
  \/ (exists r total_size evs f e,
        answer = Reply r /\ ~ Spec.error_status (status_code r)
        /\ total_size_of r = Some total_size /\ open_error dev = None
        /\ receive percent total_size dev (broken r) (chunks r) 0 EmptyString
           = (evs, f, e)
        /\ run percent download_path answer dev file
           = match e with
             | Some e =>
                 ((status_signal (Text "Starting download...") :: evs)
                  ++ [status_signal (ErrorText e); completed_signal false (inr e)],
                  Some f)
             | None =>
                 (status_signal (Text "Starting download...") :: evs
                  ++ [status_signal (Text "Download completed!");
                      completed_signal true (inl download_path)],
                  Some f)
             end).
Proof.
  unfold run. destruct answer as [e|r].
  { left. exists e. split; [|done]. by intros (r & t & ? & _). }
  unfold raise_for_status.
  destruct ((400 <=? status_code r) && (status_code r <? 600)) eqn:Hstatus.
  { left. exists (HTTPError (status_code r)). split; [|done].
    intros (r' & t & [= <-] & Hok & _). apply Hok.
    apply andb_true_iff in Hstatus as [H1%Z.leb_le H2%Z.ltb_lt]. by split. }
  destruct (total_size_of r) as [total_size|] eqn:Htotal.
  2:{ left. exists ValueError. split; [|done].
      intros (r' & t & [= <-] & _ & Ht & _). congruence. }
  destruct (open_error dev) as [e|] eqn:Hopen.
  { left. exists e. split; [|done]. intros (r' & t & _ & _ & _ & Ho & _). congruence. }
  right.
  destruct (receive percent total_size dev (broken r) (chunks r) 0 EmptyString)
    as [[evs f] e] eqn:E.
  exists r, total_size, evs, f, e. split; [done|]. split.
  { intros [H1 H2]. apply Z.leb_le in H1. apply Z.ltb_lt in H2.
    by rewrite H1, H2 in Hstatus. }
  by repeat split.
Qed.

(** X6.  The file a download leaves is the beginning of the body of the
    response, and the whole body when the download is reported complete;
    when the file is not opened it is what it was. *)
Theorem download_writes_body (download_path : path) (answer : reply)
    (dev : device) (file : option string) :
  let result := run percent download_path answer dev file in
  (result.2 = file
   \/ exists r f, answer = Reply r /\ result.2 = Some f /\ starts f (body r))
  /\ (completed result.1 -> exists r, answer = Reply r /\ result.2 = Some (body r)).
Proof.
  cbv zeta.
  destruct (run_cases download_path answer dev file)
    as [(e & _ & ->)|(r & total_size & evs & f & e & -> & _ & _ & _ & E & ->)].
  { simpl. split; [by left|]. intros H. exfalso. revert H.
    apply (failed_not_completed [_] e). repeat constructor. simpl. tauto. }
  destruct (receive_written total_size dev (broken r) (chunks r) 0 EmptyString)
    as (written & rest & Hf & Hbody & Hdone & _).
  pose proof (receive_no_terminal percent total_size dev (broken r) (chunks r)
                0 EmptyString) as Hnt.
  rewrite E in Hf, Hdone, Hnt. simpl in Hf, Hdone, Hnt.
  change (EmptyString +:+ written) with written in Hf. subst f.
  destruct e as [e|]; simpl.
  - split; [right; exists r, written; repeat split; by exists rest|].
    intros H. exfalso. revert H.
    apply (failed_not_completed (status_signal (Text "Starting download...") :: evs)).
    constructor; [simpl; tauto | done].
  - specialize (Hdone eq_refl). subst rest. rewrite string_app_nil_r in Hbody.
    split; [right|]; exists r; [exists written|]; repeat split;
      try done; unfold body; rewrite Hbody; try done.
    exists EmptyString. by rewrite string_app_nil_r.
Qed.



(** X9.  A response without a [Content-Length], or with one that reads as
    zero, yields no percentage at all: the progress bar is never moved. *)
Theorem no_percentage_without_length (download_path : path) (answer : reply)
    (dev : device) (file : option string) :
  (forall r, answer = Reply r -> total_size_of r = Some 0) ->
  percentages (run percent download_path answer dev file).1 = [].
Proof.
  intros Hlen.
  destruct (run_cases download_path answer dev file)
    as [(e & _ & ->)|(r & total_size & evs & f & e & -> & _ & Htotal & _ & E & ->)];
    [done|].
  rewrite (Hlen r eq_refl) in Htotal. injection Htotal as <-.
  pose proof (receive_percentages_unknown percent dev (broken r) (chunks r)
                0 EmptyString) as Hp.
  rewrite E in Hp. simpl in Hp.
  destruct e as [e|]; simpl; unfold percentages in *.
  - change (status_signal (Text "Starting download...") :: evs ++ ?t)
      with ([status_signal (Text "Starting download...")] ++ evs ++ t).
    by rewrite !omap_app, Hp.
  - change (status_signal (Text "Starting download...") :: evs ++ ?t)
      with ([status_signal (Text "Starting download...")] ++ evs ++ t).
    by rewrite !omap_app, Hp.
Qed.

End DownloadContent.


Lemma no_percentage_without_length_witness :
  let answer := Reply {| status_code := 200; content_length := None;
                         chunks := ["PK"; "zip"]; broken := None |} in
  let evs := (run Float.percent ["update.zip"; "tmp"] answer
                {| open_error := None; room := 100 |} None).1 in
  byte_counts evs = [2; 5] /\ percentages evs = [].
Proof.
  intros answer evs. split; [reflexivity|].
  apply (no_percentage_without_length Float.percent).
  by intros r [= <-].
Defined.

(** ** The check and the request to download *)

Section CheckProperties.
Variable json_loads : string -> option json.

(** X10.  [check_for_updates] never raises, and it leaves the download
    button enabled only with an update available and a download url
    assigned. *)
Theorem check_enables_download_safely (network : value -> reply) (w : app) :
  let result := check_for_updates json_loads network w in
  result.2 = inr tt
  /\ (download_btn_enabled (ui result.1) = true ->
      update_available result.1 = true /\ is_Some (update_url result.1)).
Proof.
  unfold check_for_updates, check_body, bind, catch, attempt, lift, modify,
    getitem, fetch, response_json, json_get, as_text, raise_for_status, ret.
  cbn [config set_status with_ui set_update_url set_update_notes].
  repeat (case_match; simplify_eq; cbn; eauto); split; done.
Qed.

(** X11.  When the manifest cannot be obtained (no url configured, the
    request fails, the status is an error, the body is not JSON or not an
    object), the check shows the warning with that error, the download
    button stays disabled, and what the last successful check found
    ([update_available], the url, the notes) is kept as it was. *)
Theorem failed_check_keeps_result (network : value -> reply) (w : app) (e : exn) :
  manifest json_loads network w = inl e ->
  let w' := (check_for_updates json_loads network w).1 in
  dialogs (ui w') = dialogs (ui w) ++ [warning "Update Check Failed" (ErrorText e)]
  /\ status_label (ui w') = Text "Error checking for updates"
  /\ download_btn_enabled (ui w') = false
  /\ update_available w' = update_available w
  /\ update_url w' = update_url w
  /\ update_notes w' = update_notes w
  /\ config w' = config w.
Proof.
  unfold manifest, check_for_updates, check_body, bind, catch, attempt, lift,
    modify, getitem, json_get.
  cbn [config set_status with_ui].
  intros H. repeat (case_match; simplify_eq); by repeat split.
Qed.

(** X12.  A request to download starts a worker exactly when an update is
    available and the url retained is not empty; the worker is given that
    url and the fixed path of the staging file, and both buttons are
    disabled while it runs. *)
Theorem download_update_starts (w : app) :
  download_thread w = None ->
  let w' := (download_update w).1 in
  (is_Some (download_thread w') <->
   update_available w = true
   /\ exists url, update_url w = Some url /\ truthy url = true)
  /\ (forall url, update_available w = true -> update_url w = Some url ->
      truthy url = true ->
      download_thread w' = Some (url, download_path w)
      /\ check_btn_enabled (ui w') = false
      /\ download_btn_enabled (ui w') = false
      /\ progress_bar_visible (ui w') = true
      /\ progress_bar_value (ui w') = 0).
Proof.
  intros Hnone. unfold download_update, bind, gets, attempt, ret, modify. cbv zeta.
  destruct (update_available w) eqn:Ha; cbn.
  2:{ rewrite Hnone. split; [|done]. split; [by intros [? ?] | by intros [? _]]. }
  destruct (update_url w) as [url|] eqn:Hu; cbn.
  2:{ rewrite Hnone. split; [|done].
      split; [by intros [? ?] | by intros (_ & ? & ? & _)]. }
  destruct (truthy url) eqn:Ht; cbn.
  - split.
    + split; [intros _; eauto | eauto].
    + intros url' _ [= <-] _. by repeat split.
  - rewrite Hnone. split.
    + split; [by intros [? ?] | intros (_ & ? & [= <-] & ?); congruence].
    + intros url' _ [= <-] ?. congruence.
Qed.

End CheckProperties.

Lemma failed_check_keeps_result_witness :
  let found : gmap string value :=
    <["version" := PStr "2.0.0"]> {["download_url" := PStr "https://x/pkg.zip"]} in
  let manifest_reply := Reply {| status_code := 200; content_length := None;
                                 chunks := ["manifest"]; broken := None |} in
  let w1 := (check_for_updates (fun _ => Some (JObject found))
               (fun _ => manifest_reply) (init ["tmp"] default_config)).1 in
  let w2 := (check_for_updates (fun _ => Some (JObject found))
               (fun _ => NoReply (RequestException "timed out")) w1).1 in
  update_available w1 = true
  /\ update_available w2 = true
  /\ download_btn_enabled (ui w2) = false
  /\ update_url w2 = Some (PStr "https://x/pkg.zip").
Proof.
  intros found manifest_reply w1 w2.
  split; [reflexivity|].
  destruct (failed_check_keeps_result (fun _ => Some (JObject found))
              (fun _ => NoReply (RequestException "timed out")) w1
              (RequestException "timed out") eq_refl)
    as (_ & _ & Hbtn & Ha & Hu & _).
  split; [exact Ha|]. split; [exact Hbtn | exact Hu].
Defined.

Lemma download_update_starts_witness :
  let found : gmap string value :=
    <["version" := PStr "2.0.0"]> {["download_url" := PStr "https://x/pkg.zip"]} in
  let w := (check_for_updates (fun _ => Some (JObject found))
              (fun _ => Reply {| status_code := 200; content_length := None;
                                 chunks := ["manifest"]; broken := None |})
              (init ["tmp"] default_config)).1 in
  download_thread w = None
  /\ download_thread (download_update w).1
     = Some (PStr "https://x/pkg.zip", ["update.zip"; "tmp"]).
Proof.
  intros found w. split; [reflexivity|].
  destruct (download_update_starts w eq_refl) as [_ Hstart].
  by destruct (Hstart (PStr "https://x/pkg.zip") eq_refl eq_refl eq_refl) as [-> _].
Defined.

(** ** The install *)

Section InstallOutcomes.
Variable json_loads : string -> option json.
Variable fold : string -> string.
Variable denied : path -> bool.






End InstallOutcomes.




(** ** A failed download, delivered *)

Section Delivery.
Variable json_loads : string -> option json.
Variable fold : string -> string.
Variable denied : path -> bool.
Variable percent : Z -> Z -> Z.

Lemma failed_run_events download_path answer dev file :
  0 <= room dev -> ~ unhindered answer dev ->
  exists before e,
    (run percent download_path answer dev file).1
    = before ++ [completed_signal false (inr e)]
    /\ Forall (fun e => ~ terminal e) before.
Proof.
  intros Hroom Hno.
  destruct (run_cases percent download_path answer dev file)
    as [(e & _ & ->)|(r & total_size & evs & f & e & -> & Hstatus & Htotal & Hopen & E & ->)].
  { exists [status_signal (Text "Starting download..."); status_signal (ErrorText e)], e.
    split; [done|]. repeat constructor; simpl; tauto. }
  pose proof (receive_outcome percent total_size dev (broken r) (chunks r) 0
                EmptyString Hroom) as Hout.
  pose proof (receive_no_terminal percent total_size dev (broken r) (chunks r)
                0 EmptyString) as Hnt.
  rewrite E in Hout, Hnt. simpl in Hout, Hnt. rewrite Z.add_0_l in Hout.
  destruct e as [e|].
  - exists ((status_signal (Text "Starting download...") :: evs)
            ++ [status_signal (ErrorText e)]), e.
    split; [by rewrite <- app_assoc|].
    apply Forall_app. split; [constructor; [simpl; tauto | done]|].
    repeat constructor. simpl. tauto.
  - destruct Hout as [Hout _]. destruct (Hout eq_refl) as [Hb Hfit].
    destruct Hno. exists r, total_size. by repeat split.
Qed.

Lemma deliver_failed_events app_dir stage refused before result :
  Forall (fun e => ~ terminal e) before ->
  forall s,
    let outcome := deliver_all json_loads fold denied app_dir stage refused
                     (before ++ [completed_signal false result]) s in
    outcome.2 = inr tt
    /\ live outcome.1 = live s
    /\ config_file outcome.1 = config_file s
    /\ config (win outcome.1) = config (win s)
    /\ status_label (ui (win outcome.1)) = Text "Download failed!"
    /\ check_btn_enabled (ui (win outcome.1)) = true
    /\ download_btn_enabled (ui (win outcome.1)) = true
    /\ progress_bar_visible (ui (win outcome.1)) = false.
Proof.
  induction 1 as [|e before He _ IH]; intros s; [by repeat split|].
  rewrite <- app_comm_cons. cbn [deliver_all]. unfold bind at 1.
  destruct e as [text|progress|ok res]; [| |by destruct He].
  - specialize (IH {| win := with_ui (fun u => setText_status text (status_icon u) u) (win s);
                      live := live s; config_file := config_file s |}).
    exact IH.
  - specialize (IH {| win := with_ui (setValue_progress progress) (win s);
                      live := live s; config_file := config_file s |}).
    exact IH.
Qed.

(** X17.  When something stands in the way of a download, delivering the
    events of the worker to the window ends with "Download failed!", both
    buttons enabled and the progress bar hidden, and the install is never
    begun: the disk, the configuration and the configuration file are what
    they were. *)
Theorem failed_download_leaves_installation (download_path app_dir : path)
    (answer : reply) (dev : device) (file : option string) (stage : staging)
    (refused : option exn) (s : world) :
  0 <= room dev -> ~ unhindered answer dev ->
  let evs := (run percent download_path answer dev file).1 in
  let outcome := deliver_all json_loads fold denied app_dir stage refused evs s in
  outcome.2 = inr tt
  /\ live outcome.1 = live s
  /\ config_file outcome.1 = config_file s
  /\ config (win outcome.1) = config (win s)
  /\ status_label (ui (win outcome.1)) = Text "Download failed!"
  /\ check_btn_enabled (ui (win outcome.1)) = true
  /\ download_btn_enabled (ui (win outcome.1)) = true
  /\ progress_bar_visible (ui (win outcome.1)) = false.
Proof.
  intros Hroom Hno. cbv zeta.
  destruct (failed_run_events download_path answer dev file Hroom Hno)
    as (before & e & -> & Hbefore).
  by apply deliver_failed_events.
Qed.

End Delivery.

Lemma failed_download_leaves_installation_witness :
  let answer := Reply {| status_code := 503; content_length := None;
                         chunks := ["busy"]; broken := None |} in
  let dev := {| open_error := None; room := 100 |} in
  let s := {| win := init ["tmp"] default_config;
              live := <[["app"] := Dir]> (<[["app.py"; "app"] := File "old"]> ∅);
              config_file := Some default_config |} in
  let evs := (run Float.percent ["update.zip"; "tmp"] answer dev None).1 in
  let s' := (deliver_all (fun _ => None) (fun name => name) (fun _ => false)
               ["app"] (Extracted (NDir [("app.py", NFile "new")])) None evs s).1 in
  live s' = live s
  /\ status_label (ui (win s')) = Text "Download failed!"
  /\ download_btn_enabled (ui (win s')) = true.
Proof.
  intros answer dev s evs s'.
  assert (0 <= room dev) as Hroom by (simpl; lia).
  assert (~ unhindered answer dev) as Hno.
  { intros (r & t & [= <-] & Hstatus & _). apply Hstatus.
    unfold error_status. simpl. lia. }
  destruct (failed_download_leaves_installation (fun _ => None) (fun name => name)
              (fun _ => false) Float.percent ["update.zip"; "tmp"] ["app"] answer dev
              None (Extracted (NDir [("app.py", NFile "new")])) None s Hroom Hno)
    as (_ & Hlive & _ & _ & Hstatus & _ & Hbtn & _).
  split; [exact Hlive|]. split; [exact Hstatus | exact Hbtn].
Defined.

(** ** Loading the configuration *)

Section ConfigProperties.
Variable json_loads : string -> option json.
Variable json_dumps : gmap string value -> string.


(** X19.  On a first run, with no configuration file and a directory that
    can be written, [load_config] returns the defaults and creates the file
    from them; loading again then decodes that file, returns the same
    defaults and leaves the file as it is, provided decoding undoes the
    encoding of the defaults. *)
Theorem load_config_first_run (unreadable unwritable : option exn) :
  json_loads (json_dumps default_config) = Some (JObject default_config) ->
  let first := load_config json_loads json_dumps unreadable None None in
  let second := load_config json_loads json_dumps None unwritable (loaded_file first) in
  loaded_config first = JObject default_config
  /\ loaded_error first = None
  /\ loaded_file first = Some (json_dumps default_config)
  /\ second = first.
Proof.
  intros Hround. cbn. by rewrite Hround.
Qed.

End ConfigProperties.

Lemma load_config_first_run_witness :
  let loads := fun text : string =>
    if String.eqb text "defaults" then Some (JObject default_config) else None in
  let dumps := fun _ : gmap string value => "defaults" in
  let first := load_config loads dumps None None None in
  loaded_file first = Some "defaults"
  /\ load_config loads dumps None (Some PermissionError) (loaded_file first) = first
  /\ loaded_config (load_config loads dumps None None (Some "{")) = JObject default_config
  /\ loaded_file (load_config loads dumps None None (Some "{")) = Some "{".
Proof.
  intros loads dumps first.
  destruct (load_config_first_run loads dumps None (Some PermissionError) eq_refl)
    as (_ & _ & Hfile & Hsecond).
  split; [exact Hfile|]. split; [exact Hsecond|]. by split.
Defined.

(** ** A completed download, delivered *)

Section Pipeline.
Variable json_loads : string -> option json.
Variable fold : string -> string.
Variable denied : path -> bool.
Variable percent : Z -> Z -> Z.





End Pipeline.

